(** * Exception-handling checker: the command-line dispatcher of [main.py]

    A shallow embedding of [src/main.py].  Python strings are sequences of
    Unicode code points; the file system, the process table, the logging
    stream and standard output are threaded through a state monad with an
    early exit for [sys.exit]. *)

From Stdlib Require Import ssreflect ZArith NArith List String Ascii.
From stdpp Require Import base list gmap.

Set Default Proof Using "Type".
Set Warnings "-rewrite-rw".

(** ** Python strings *)

(** A character is a code point, a [str] is a sequence of code points. *)
Abbreviation char := N (only parsing).
Abbreviation str := (list N) (only parsing).

(** An ASCII literal of the source, as a [str]. *)
Definition lit (s : string) : str :=
  List.map N_of_ascii (list_ascii_of_string s).
Arguments lit s%_string.

Module Py.

Local Open Scope N_scope.

(** [str.isspace] on one code point: the characters [str.strip()] removes. *)
Definition isspace (c : char) : bool :=
  ((9 <=? c) && (c <=? 13)) || ((28 <=? c) && (c <=? 32))
  || (c =? 133) || (c =? 160) || (c =? 5760)
  || ((8192 <=? c) && (c <=? 8202))
  || (c =? 8232) || (c =? 8233) || (c =? 8239) || (c =? 8287)
  || (c =? 12288).

(** Truth value of a string or of a list: non-empty. *)
Definition truthy {A : Type} (l : list A) : bool :=
  match l with [] => false | _ :: _ => true end.

Fixpoint lstrip (s : str) : str :=
  match s with
  | [] => []
  | c :: s' => if isspace c then lstrip s' else s
  end.

Fixpoint rstrip (s : str) : str :=
  match s with
  | [] => []
  | c :: s' =>
      match rstrip s' with
      | [] => if isspace c then [] else [c]
      | r => c :: r
      end
  end.

(** [s.strip()]: leading white space is skipped, then trailing. *)
Definition strip (s : str) : str := rstrip (lstrip s).

(** [s.split(sep)] for a one-character separator: never the empty list. *)
Fixpoint split (sep : char) (s : str) : list str :=
  match s with
  | [] => [[]]
  | c :: s' =>
      if c =? sep then [] :: split sep s'
      else match split sep s' with
           | [] => [[c]]
           | w :: ws => (c :: w) :: ws
           end
  end.

(** [sep.join(l)]. *)
Fixpoint join (sep : str) (l : list str) : str :=
  match l with
  | [] => []
  | x :: l' =>
      match l' with
      | [] => x
      | _ :: _ => x ++ sep ++ join sep l'
      end
  end.

(** [s.replace(old, new)] for a one-character [old]. *)
Definition replace (old : char) (new : str) (s : str) : str :=
  List.concat (List.map (fun c => if c =? old then new else [c]) s).

End Py.

Module Shlex.

Local Open Scope N_scope.

(** The characters outside [[^\w@%+=:,./-]] (ASCII flag): safe unquoted. *)
Definition safe (c : char) : bool :=
  ((48 <=? c) && (c <=? 57)) || ((65 <=? c) && (c <=? 90))
  || ((97 <=? c) && (c <=? 122)) || (c =? 95)
  || (c =? 64) || (c =? 37) || (c =? 43) || (c =? 61) || (c =? 58)
  || (c =? 44) || (c =? 46) || (c =? 47) || (c =? 45).

Definition squote : char := 39.
Definition dquote : char := 34.

(** [shlex.quote]. *)
Definition quote (s : str) : str :=
  if negb (Py.truthy s) then [squote; squote]
  else if List.forallb safe s then s
  else [squote]
         ++ Py.replace squote [squote; dquote; squote; dquote; squote] s
         ++ [squote].

End Shlex.

Definition comma : char := 44%N.
Definition newline : char := 10%N.


(** ** The environment of one run *)

(** What [subprocess.run] meets, before [check=True] is applied.  An
    interrupt, which no handler of the adapters catches, is left out. *)
Inductive spawn_result :=
| Completed (returncode : Z) (stdout stderr : str)
| NoSuchFile (text : str)   (* FileNotFoundError; [text] is [str(e)] *)
| Failed (text : str).      (* any other subclass of Exception, such as the
                               PermissionError of a file that cannot be run *)

(** What the [with open(f, "w")] block of [main] meets. *)
Inductive write_result :=
| Written                                 (* opened, written, closed *)
| OpenFails (text : str)                  (* IOError from [open] *)
| WriteFails (text : str) (partial : str). (* IOError after truncation *)

Record World := {
  os_path_exists : str -> bool;
  popen : list str -> spawn_result;
  str_CalledProcessError : Z -> list str -> str;
  fs_write : str -> str -> write_result
}.

(** The exceptions the adapters distinguish. *)
Inductive exn :=
| CalledProcessError (returncode : Z) (cmd : list str) (output stderr : str)
| FileNotFoundError (text : str)
| OtherException (text : str).

(** [str(e)], as the f-strings of the handlers format it. *)
Definition exn_str (w : World) (e : exn) : str :=
  match e with
  | CalledProcessError rc cmd _ _ => str_CalledProcessError w rc cmd
  | FileNotFoundError text => text
  | OtherException text => text
  end.

Inductive level := INFO | ERROR.

Record State := {
  logged : list (level * str);      (* records of the root logger *)
  invoked : list (list str);        (* argument vectors given to subprocess.run *)
  stdout : str;                     (* what was printed *)
  files : gmap (list N) (list N)    (* what [main] wrote, by the path as given *)
}.

Definition initial : State :=
  {| logged := []; invoked := []; stdout := []; files := ∅ |}.

(** ** Computations: state passing with [sys.exit] *)

Inductive outcome (A : Type) :=
| Return (a : A)
| SysExit (code : Z).
Arguments Return {A} a.
Arguments SysExit {A} code.

Definition M (A : Type) : Type := State -> outcome A * State.

#[global] Instance M_ret : MRet M := fun A a st => (Return a, st).

#[global] Instance M_bind : MBind M := fun A B f m st =>
  match m st with
  | (Return a, st') => f a st'
  | (SysExit c, st') => (SysExit c, st')
  end.

Definition sys_exit {A} (code : Z) : M A := fun st => (SysExit code, st).

Definition logging (lv : level) (msg : str) : M unit :=
  fun st => (Return tt,
             {| logged := logged st ++ [(lv, msg)]; invoked := invoked st;
                stdout := stdout st; files := files st |}).

Definition logging_info : str -> M unit := logging INFO.
Definition logging_error : str -> M unit := logging ERROR.

(** [print(s)]: the text, then the line terminator.  Standard output is
    taken to accept what is written to it; a write error there is not
    modelled. *)
Definition print (s : str) : M unit :=
  fun st => (Return tt,
             {| logged := logged st; invoked := invoked st;
                stdout := stdout st ++ s ++ [newline]; files := files st |}).

Definition store (f data : str) : M unit :=
  fun st => (Return tt,
             {| logged := logged st; invoked := invoked st;
                stdout := stdout st; files := <[f := data]> (files st) |}).

(** [subprocess.run(command, capture_output=True, text=True, check=True)]:
    the captured standard output, or the exception raised. *)
Definition subprocess_run (w : World) (command : list str) : M (exn + str) :=
  fun st =>
    (Return
       match popen w command with
       | Completed rc out err =>
           if (rc =? 0)%Z then inr out
           else inl (CalledProcessError rc command out err)
       | NoSuchFile text => inl (FileNotFoundError text)
       | Failed text => inl (OtherException text)
       end,
     {| logged := logged st; invoked := invoked st ++ [command];
        stdout := stdout st; files := files st |}).

(** The builtin [open] refuses the empty path; elsewhere the file system
    decides. *)
Definition write_file (w : World) (f data : str) : write_result :=
  if Py.truthy f then fs_write w f data
  else OpenFails (lit "[Errno 2] No such file or directory: ''").

(** The exit status of the process, from the outcome of [main]. *)
Definition exit_status (o : outcome unit) : Z :=
  match o with
  | Return _ => 0
  | SysExit code => code
  end.

(** ** The argument parser *)

(** The values the command line gives to the four arguments that
    [setup_argparse] declares, after [argparse] has split it. *)
Record CommandLine := {
  given_path : option str;
  given_report_file : option str;
  given_exclude : option str;
  given_tool : option str
}.

(** The namespace [parser.parse_args()] returns. *)
Record Namespace := {
  path : str;
  report_file : option str;   (* [None] when the option is absent *)
  exclude : str;
  tool : str
}.

(** What [setup_argparse] configures beyond the names of the arguments:
    [choices] and [default] of [--tool], [default] of [--exclude]. *)
Record ArgumentParser := {
  tool_choices : list str;
  tool_default : str;
  exclude_default : str
}.

Definition setup_argparse : ArgumentParser :=
  {| tool_choices :=
       [lit "bandit"; lit "flake8"; lit "pylint"; lit "pyre-check"];
     tool_default := lit "bandit";
     exclude_default := [] |}.

(** [parser.parse_args()]: the positional [path] is required, a given
    [--tool] must be one of the choices, a usage error exits with 2. *)
Definition parse_args (parser : ArgumentParser) (argv : CommandLine)
    : M Namespace :=
  match given_path argv with
  | None => sys_exit 2
  | Some p =>
      t ← match given_tool argv with
          | None => mret (tool_default parser)
          | Some t =>
              if bool_decide (t ∈ tool_choices parser) then mret t
              else sys_exit 2
          end;
      mret {| path := p;
              report_file := given_report_file argv;
              exclude := default (exclude_default parser) (given_exclude argv);
              tool := t |}
  end.

(** ** The program *)

Definition check_path (w : World) (path : str) : M bool :=
  if negb (os_path_exists w path) then
    logging_error (lit "Error: Path '" ++ path ++ lit "' does not exist.");;
    mret false
  else mret true.

(** The command line as the adapters log it. *)
Definition quoted (command : list str) : str :=
  Py.join (lit " ") (Shlex.quote <$> command).

Definition bandit_command (path exclude : str) : list str :=
  let exclude_list :=
    (fun e => lit "--exclude=" ++ Py.strip e) <$>
      (filter (fun e => Py.truthy (Py.strip e)) (Py.split comma exclude)) in
  [lit "bandit"; lit "-r"; path; lit "-f"; lit "txt"] ++ exclude_list.

Definition analyze_with_bandit (w : World) (path exclude : str) : M str :=
  let command := bandit_command path exclude in
  logging_info (lit "Running Bandit with command: " ++ quoted command);;
  result ← subprocess_run w command;
  match result with
  | inr stdout => mret stdout
  | inl (CalledProcessError _ _ _ stderr as e) =>
      logging_error (lit "Bandit analysis failed: " ++ exn_str w e);;
      mret (lit "Bandit analysis failed: " ++ exn_str w e
              ++ [newline] ++ stderr)
  | inl e =>
      logging_error (lit "Error running Bandit: " ++ exn_str w e);;
      mret (lit "Error running Bandit: " ++ exn_str w e)
  end.

Definition flake8_command (path exclude : str) : list str :=
  let command :=
    [lit "flake8"; path; lit "--extend-ignore=E722,B001,B028";
     lit "--select=E,W,F,C90"; lit "--max-complexity=10"] in
  let exclude_list :=
    Py.strip <$>
      (filter (fun e => Py.truthy (Py.strip e)) (Py.split comma exclude)) in
  if Py.truthy exclude_list
  then command ++ [lit "--exclude"; Py.join [comma] exclude_list]
  else command.

Definition analyze_with_flake8 (w : World) (path exclude : str) : M str :=
  let command := flake8_command path exclude in
  logging_info (lit "Running Flake8 with command: " ++ quoted command);;
  result ← subprocess_run w command;
  match result with
  | inr stdout => mret stdout
  | inl (CalledProcessError _ _ _ stderr as e) =>
      logging_error (lit "Flake8 analysis failed: " ++ exn_str w e);;
      mret (lit "Flake8 analysis failed: " ++ exn_str w e
              ++ [newline] ++ stderr)
  | inl e =>
      logging_error (lit "Error running Flake8: " ++ exn_str w e);;
      mret (lit "Error running Flake8: " ++ exn_str w e)
  end.

Definition pylint_command (path exclude : str) : list str :=
  let command :=
    [lit "pylint"; path; lit "--disable=C0301,W0703,W0702,broad-except"] in
  let exclude_list :=
    Py.strip <$>
      (filter (fun e => Py.truthy (Py.strip e)) (Py.split comma exclude)) in
  if Py.truthy exclude_list
  then command ++ [lit "--ignore"; Py.join [comma] exclude_list]
  else command.

Definition analyze_with_pylint (w : World) (path exclude : str) : M str :=
  let command := pylint_command path exclude in
  logging_info (lit "Running Pylint with command: " ++ quoted command);;
  result ← subprocess_run w command;
  match result with
  | inr stdout => mret stdout
  | inl (CalledProcessError _ _ _ stderr as e) =>
      logging_error (lit "Pylint analysis failed: " ++ exn_str w e);;
      mret (lit "Pylint analysis failed: " ++ exn_str w e
              ++ [newline] ++ stderr)
  | inl e =>
      logging_error (lit "Error running Pylint: " ++ exn_str w e);;
      mret (lit "Error running Pylint: " ++ exn_str w e)
  end.

Definition pyre_command (path : str) : list str :=
  [lit "pyre"; lit "analyze"; path].

Definition pyre_missing : str :=
  lit "Pyre is not installed or not in PATH. Please install Pyre.".

Definition analyze_with_pyre (w : World) (path exclude : str) : M str :=
  let command := pyre_command path in
  logging_info (lit "Running Pyre with command: " ++ quoted command);;
  result ← subprocess_run w command;
  match result with
  | inr stdout => mret stdout
  | inl (CalledProcessError _ _ _ stderr as e) =>
      logging_error (lit "Pyre analysis failed: " ++ exn_str w e);;
      mret (lit "Pyre analysis failed: " ++ exn_str w e
              ++ [newline] ++ stderr)
  | inl (FileNotFoundError _) =>
      logging_error pyre_missing;;
      mret pyre_missing
  | inl e =>
      logging_error (lit "Error running Pyre: " ++ exn_str w e);;
      mret (lit "Error running Pyre: " ++ exn_str w e)
  end.

(** The branch of the [if]/[elif] chain of [main] that a tool name takes. *)
Inductive branch := Bandit | Flake8 | Pylint | PyreCheck | Invalid.

#[global] Instance branch_eq_dec : EqDecision branch.
Proof. solve_decision. Defined.

Definition select (tool : str) : branch :=
  if bool_decide (tool = lit "bandit") then Bandit
  else if bool_decide (tool = lit "flake8") then Flake8
  else if bool_decide (tool = lit "pylint") then Pylint
  else if bool_decide (tool = lit "pyre-check") then PyreCheck
  else Invalid.

(** [main], "Choose analysis tool". *)
Definition choose_tool (w : World) (args : Namespace) : M str :=
  match select (tool args) with
  | Bandit => analyze_with_bandit w (path args) (exclude args)
  | Flake8 => analyze_with_flake8 w (path args) (exclude args)
  | Pylint => analyze_with_pylint w (path args) (exclude args)
  | PyreCheck => analyze_with_pyre w (path args) (exclude args)
  | Invalid =>
      logging_error (lit "Invalid tool specified: " ++ tool args);;
      sys_exit 1
  end.

(** Truth value of [args.report_file]: [None] and the empty string are
    false. *)
Definition report_target (args : Namespace) : option str :=
  match report_file args with
  | Some f => if Py.truthy f then Some f else None
  | None => None
  end.

(** [main], "Output the results". *)
Definition output_results (w : World) (args : Namespace)
    (analysis_results : str) : M unit :=
  match report_target args with
  | Some f =>
      match write_file w f analysis_results with
      | Written =>
          store f analysis_results;;
          logging_info (lit "Report saved to " ++ f)
      | OpenFails text =>
          logging_error (lit "Error writing to report file: " ++ text);;
          sys_exit 1
      | WriteFails text partial =>
          store f partial;;
          logging_error (lit "Error writing to report file: " ++ text);;
          sys_exit 1
      end
  | None => print analysis_results
  end.

Definition main (w : World) (argv : CommandLine) : M unit :=
  let parser := setup_argparse in
  args ← parse_args parser argv;
  ok ← check_path w (path args);
  (if negb ok then sys_exit 1 else mret tt);;
  analysis_results ← choose_tool w args;
  output_results w args analysis_results.

(** The trimmed, non-empty entries of an exclude string, in the order of the
    input: the normal form that the three adapters share. *)
Definition entries (exclude : str) : list str :=
  filter (fun e => Py.truthy e) (Py.strip <$> Py.split comma exclude).

(** No white space at either end. *)
Definition trimmed (s : str) : Prop :=
  (∀ c, head s = Some c → Py.isspace c = false) ∧
  (∀ c, last s = Some c → Py.isspace c = false).

(** ** What one run of an adapter leaves *)

(** The returned text and the error records of an adapter, by what the
    external process did.  [missing], when given, is the text an adapter
    returns for an executable that is not found. *)
Definition report (w : World) (title : str) (missing : option str)
    (command : list str) : str * list (level * str) :=
  match popen w command with
  | Completed rc out err =>
      if (rc =? 0)%Z then (out, [])
      else
        let m := title ++ lit " analysis failed: "
                   ++ str_CalledProcessError w rc command in
        (m ++ [newline] ++ err, [(ERROR, m)])
  | NoSuchFile text =>
      let m := from_option id (lit "Error running " ++ title ++ lit ": " ++ text)
                 missing in
      (m, [(ERROR, m)])
  | Failed text =>
      let m := lit "Error running " ++ title ++ lit ": " ++ text in
      (m, [(ERROR, m)])
  end.

(** The state an adapter leaves: one invocation, the command logged first. *)
Definition after_run (w : World) (title : str) (missing : option str)
    (command : list str) (st : State) : State :=
  {| logged := logged st
       ++ (INFO, lit "Running " ++ title ++ lit " with command: "
                   ++ quoted command)
       :: (report w title missing command).2;
     invoked := invoked st ++ [command];
     stdout := stdout st;
     files := files st |}.


(** The display name, the command and the not-found text of each branch of
    the dispatch. *)
Definition title (b : branch) : str :=
  match b with
  | Bandit => lit "Bandit"
  | Flake8 => lit "Flake8"
  | Pylint => lit "Pylint"
  | PyreCheck => lit "Pyre"
  | Invalid => []
  end.

Definition missing (b : branch) : option str :=
  match b with
  | PyreCheck => Some pyre_missing
  | _ => None
  end.

Definition command_of (args : Namespace) : list str :=
  match select (tool args) with
  | Bandit => bandit_command (path args) (exclude args)
  | Flake8 => flake8_command (path args) (exclude args)
  | Pylint => pylint_command (path args) (exclude args)
  | PyreCheck => pyre_command (path args)
  | Invalid => []
  end.

(** ** Sample runs *)

(** Every path exists, every tool exits with status 1, no file can be
    opened for writing. *)
Definition failing_world : World :=
  {| os_path_exists := fun _ => true;
     popen := fun _ => Completed 1 (lit "partial") (lit "boom");
     str_CalledProcessError := fun _ _ =>
       lit "Command returned non-zero exit status 1.";
     fs_write := fun _ _ => OpenFails (lit "[Errno 13] Permission denied") |}.

(** Only [/tmp/proj] exists, every tool prints [ok] and exits with 0, every
    file can be written. *)
Definition quiet_world : World :=
  {| os_path_exists := fun p => bool_decide (p = lit "/tmp/proj");
     popen := fun _ => Completed 0 (lit "ok") [];
     str_CalledProcessError := fun _ _ => [];
     fs_write := fun _ _ => Written |}.

(** Every path exists, no tool is installed. *)
Definition bare_world : World :=
  {| os_path_exists := fun _ => true;
     popen := fun _ => NoSuchFile (lit "[Errno 2] No such file or directory");
     str_CalledProcessError := fun _ _ => [];
     fs_write := fun _ _ => Written |}.

Definition command_line (p : str) (r e t : option str) : CommandLine :=
  {| given_path := Some p; given_report_file := r;
     given_exclude := e; given_tool := t |}.

(** The four adapters, each with its display name and the command it
    builds. *)
Definition adapters
    : list (str * (str -> str -> list str) * (World -> str -> str -> M str)) :=
  [(lit "Bandit", bandit_command, analyze_with_bandit);
   (lit "Flake8", flake8_command, analyze_with_flake8);
   (lit "Pylint", pylint_command, analyze_with_pylint);
   (lit "Pyre", fun path _ => pyre_command path, analyze_with_pyre)].

(** A command line that [argparse] refuses: no [path], or a [--tool] outside
    the choices. *)
Definition usage_error (argv : CommandLine) : Prop :=
  given_path argv = None
  ∨ ∃ t, given_tool argv = Some t ∧ t ∉ tool_choices setup_argparse.

(** Every path exists, the executable is there but cannot be started. *)
Definition unstartable_world : World :=
  {| os_path_exists := fun _ => true;
     popen := fun _ => Failed (lit "[Errno 13] Permission denied: 'pyre'");
     str_CalledProcessError := fun _ _ => [];
     fs_write := fun _ _ => Written |}.

(** ** The exclude string, described on its characters *)

(** What stands between two commas of an exclude string: white space, a
    core, white space. *)
Record piece := {
  lead : str;
  core : str;
  trail : str
}.

Definition raw (p : piece) : str := lead p ++ core p ++ trail p.

(** [lead] and [trail] are white space; [core], which may be empty, holds no
    comma and neither starts nor ends with white space. *)
Definition well_formed (p : piece) : Prop :=
  Forall (fun c => Py.isspace c) (lead p)
  ∧ Forall (fun c => Py.isspace c) (trail p)
  ∧ (comma ∉ core p)
  ∧ trimmed (core p).

(** The strings of a list, with a comma between each two. *)
Fixpoint with_commas (l : list str) : str :=
  match l with
  | [] => []
  | x :: l' =>
      match l' with
      | [] => x
      | _ :: _ => x ++ (comma :: with_commas l')
      end
  end.

(** The cores that are not empty, in the order of the pieces. *)
Definition cores (ps : list piece) : list str :=
  filter (fun e => e ≠ []) (core <$> ps).
(** * Properties *)

(** ** Sample evaluations *)

Example split_sample :
  Py.split comma (lit "a, b ,c") = [lit "a"; lit " b "; lit "c"].
Proof. reflexivity. Qed.

Example split_empty : Py.split comma [] = [[]].
Proof. reflexivity. Qed.

Example strip_sample : Py.strip (lit "  b ") = lit "b".
Proof. reflexivity. Qed.

Example quote_plain : Shlex.quote (lit "--exclude=a/b") = lit "--exclude=a/b".
Proof. reflexivity. Qed.

Example quote_space : Shlex.quote (lit "my dir") = lit "'my dir'".
Proof. reflexivity. Qed.

Example bandit_sample :
  bandit_command (lit "src") (lit "a, b ,c,, ")
  = [lit "bandit"; lit "-r"; lit "src"; lit "-f"; lit "txt";
     lit "--exclude=a"; lit "--exclude=b"; lit "--exclude=c"].
Proof. reflexivity. Qed.

Example flake8_no_entries :
  flake8_command (lit "src") (lit " , ")
  = [lit "flake8"; lit "src"; lit "--extend-ignore=E722,B001,B028";
     lit "--select=E,W,F,C90"; lit "--max-complexity=10"].
Proof. reflexivity. Qed.

Example invalid_tool_is_refused :
  (parse_args setup_argparse
     (command_line (lit "src") None None (Some (lit "mypy"))) initial).1
  = SysExit 2.
Proof. reflexivity. Qed.

(** ** Strings *)

Section strings.

Implicit Types (s e : str) (c sep : char).

Lemma truthy_true {A} (l : list A) : Py.truthy l ↔ l ≠ [].
Proof. by destruct l. Qed.

Lemma split_not_nil sep s : Py.split sep s ≠ [].
Proof.
  destruct s as [|c s]; simpl; [done|].
  destruct (c =? sep)%N; [done|]. by destruct (Py.split sep s).
Qed.

Lemma join_cons_cons (d x y : str) (l : list str) :
  Py.join d (x :: y :: l) = x ++ d ++ Py.join d (y :: l).
Proof. done. Qed.

(** Joining what was split gives the string back. *)
Lemma join_split sep s : Py.join [sep] (Py.split sep s) = s.
Proof.
  induction s as [|c s IH]; [done|].
  cbn [Py.split]. destruct (N.eqb_spec c sep) as [->|Hne].
  - pose proof (split_not_nil sep s) as Hnil.
    destruct (Py.split sep s) as [|w ws]; [done|].
    rewrite join_cons_cons IH. done.
  - destruct (Py.split sep s) as [|w ws] eqn:Hs.
    + by apply split_not_nil in Hs.
    + destruct ws as [|w' ws].
      * simpl in *. by rewrite IH.
      * rewrite join_cons_cons. rewrite join_cons_cons in IH.
        simpl. by rewrite -IH.
Qed.

(** No entry of a split contains the separator. *)
Lemma split_no_sep sep s e : e ∈ Py.split sep s → sep ∉ e.
Proof.
  revert e. induction s as [|c s IH]; intros e; cbn [Py.split].
  - intros ->%list_elem_of_singleton. apply not_elem_of_nil.
  - destruct (N.eqb_spec c sep) as [->|Hne].
    + intros [->|He]%elem_of_cons; [apply not_elem_of_nil|by apply IH].
    + destruct (Py.split sep s) as [|w ws]; intros [->|He]%elem_of_cons.
      * intros [?|[]%not_elem_of_nil]%elem_of_cons. done.
      * by apply not_elem_of_nil in He.
      * intros [?|Hw]%elem_of_cons; [done|].
        apply (IH w); [left|done].
      * apply IH. by right.
Qed.

Lemma lstrip_head s c : head (Py.lstrip s) = Some c → Py.isspace c = false.
Proof.
  induction s as [|a s IH]; simpl; [done|].
  destruct (Py.isspace a) eqn:Ha; [done|]. simpl. by intros [= <-].
Qed.

Lemma lstrip_id s :
  (∀ c, head s = Some c → Py.isspace c = false) → Py.lstrip s = s.
Proof.
  destruct s as [|a s]; simpl; [done|]. intros H. by rewrite (H a).
Qed.

Lemma rstrip_snoc s c : Py.isspace c = false → Py.rstrip (s ++ [c]) = s ++ [c].
Proof.
  intros Hc. induction s as [|a s IH]; simpl; [by rewrite Hc|].
  rewrite IH. by destruct s.
Qed.

Lemma rstrip_id s :
  (∀ c, last s = Some c → Py.isspace c = false) → Py.rstrip s = s.
Proof.
  destruct s as [|a s _] using rev_ind; [done|].
  intros H. apply rstrip_snoc, H, last_snoc.
Qed.

Lemma rstrip_last s c : last (Py.rstrip s) = Some c → Py.isspace c = false.
Proof.
  induction s as [|a s IH]; simpl; [done|].
  destruct (Py.rstrip s) as [|b r].
  - destruct (Py.isspace a) eqn:Ha; [done|]. simpl. by intros [= <-].
  - by rewrite last_cons_cons.
Qed.

Lemma rstrip_head s c : head (Py.rstrip s) = Some c → head s = Some c.
Proof.
  destruct s as [|a s]; simpl; [done|].
  destruct (Py.rstrip s); [by destruct (Py.isspace a)|done].
Qed.

Lemma strip_trimmed s : trimmed (Py.strip s).
Proof.
  split; intros c Hc.
  - by apply rstrip_head, lstrip_head in Hc.
  - by apply rstrip_last in Hc.
Qed.

Lemma strip_id s : trimmed s → Py.strip s = s.
Proof.
  intros [Hh Hl]. unfold Py.strip. rewrite (lstrip_id s Hh). by apply rstrip_id.
Qed.

Lemma strip_idemp s : Py.strip (Py.strip s) = Py.strip s.
Proof. apply strip_id, strip_trimmed. Qed.

(** The comprehension of the adapters computes [entries]. *)
Lemma comprehension_entries (l : list str) :
  Py.strip <$> filter (fun e => Py.truthy (Py.strip e)) l
  = filter (fun e => Py.truthy e) (Py.strip <$> l).
Proof.
  induction l as [|e l IH]; [done|].
  rewrite fmap_cons !filter_cons. destruct (decide _); [|done].
  by rewrite fmap_cons IH.
Qed.

Lemma comprehension_entries_fmap {B} (f : list N → B) (l : list str) :
  (fun e => f (Py.strip e)) <$> filter (fun e => Py.truthy (Py.strip e)) l
  = f <$> filter (fun e => Py.truthy e) (Py.strip <$> l).
Proof. by rewrite -comprehension_entries -list_fmap_compose. Qed.

Lemma elem_of_lstrip s c : c ∈ Py.lstrip s → c ∈ s.
Proof.
  induction s as [|a s IH]; simpl; [done|].
  destruct (Py.isspace a); [|done]. intros H. right. by apply IH.
Qed.

Lemma elem_of_rstrip s c : c ∈ Py.rstrip s → c ∈ s.
Proof.
  induction s as [|a s IH]; simpl; [done|].
  destruct (Py.rstrip s) as [|b r].
  - destruct (Py.isspace a); [by intros ?%not_elem_of_nil|].
    intros ->%list_elem_of_singleton. by left.
  - intros [->|H]%elem_of_cons; [by left|]. right. by apply IH.
Qed.

Lemma elem_of_strip s c : c ∈ Py.strip s → c ∈ s.
Proof. by intros ?%elem_of_rstrip%elem_of_lstrip. Qed.

End strings.

(** ** White space and pieces *)

Section pieces.

Implicit Types (s e : str) (c sep : char).

Lemma lstrip_decompose s :
  ∃ l, s = l ++ Py.lstrip s ∧ Forall (fun c => Py.isspace c) l.
Proof.
  induction s as [|a s (l & Hs & Hl)]; [by exists []|]. simpl.
  destruct (Py.isspace a) eqn:Ha.
  - exists (a :: l). split; [simpl; by f_equal|].
    constructor; [by rewrite Ha|done].
  - by exists [].
Qed.

Lemma rstrip_decompose s :
  ∃ r, s = Py.rstrip s ++ r ∧ Forall (fun c => Py.isspace c) r.
Proof.
  induction s as [|a s (r & Hs & Hr)]; [by exists []|]. simpl.
  destruct (Py.rstrip s) as [|b t].
  - simpl in Hs. subst r. destruct (Py.isspace a) eqn:Ha.
    + exists (a :: s). split; [done|]. constructor; [by rewrite Ha|done].
    + by exists s.
  - exists r. split; [simpl; by f_equal|done].
Qed.

(** [strip] removes white space at the two ends and nothing else. *)
Lemma strip_decompose s :
  ∃ l r, s = l ++ Py.strip s ++ r
         ∧ Forall (fun c => Py.isspace c) l ∧ Forall (fun c => Py.isspace c) r.
Proof.
  destruct (lstrip_decompose s) as (l & Hs & Hl).
  destruct (rstrip_decompose (Py.lstrip s)) as (r & Hs' & Hr).
  exists l, r. split; [|done]. unfold Py.strip. by rewrite -Hs'.
Qed.

Lemma lstrip_blank s : Forall (fun c => Py.isspace c) s → Py.lstrip s = [].
Proof.
  induction 1 as [|a s Ha _ IH]; [done|]. simpl.
  by destruct (Py.isspace a).
Qed.

Lemma strip_nil s : Py.strip s = [] ↔ Forall (fun c => Py.isspace c) s.
Proof.
  split.
  - intros H. destruct (strip_decompose s) as (l & r & Hs & Hl & Hr).
    rewrite H in Hs. rewrite Hs. by apply Forall_app.
  - intros H. unfold Py.strip. by rewrite lstrip_blank.
Qed.

Lemma elem_of_split sep s e c : e ∈ Py.split sep s → c ∈ e → c ∈ s.
Proof.
  revert e. induction s as [|a s IH]; intros e; cbn [Py.split].
  - by intros ->%list_elem_of_singleton.
  - destruct (N.eqb_spec a sep) as [->|Hne].
    + intros [->|He]%elem_of_cons Hc; [by apply not_elem_of_nil in Hc|].
      right. by apply (IH e).
    + destruct (Py.split sep s) as [|w ws]; intros [->|He]%elem_of_cons Hc.
      * apply elem_of_cons in Hc as [->|Hc]; [by left|].
        by apply not_elem_of_nil in Hc.
      * by apply not_elem_of_nil in He.
      * apply elem_of_cons in Hc as [->|Hc]; [by left|].
        right. apply (IH w); [by left|done].
      * right. apply (IH e); [by right|done].
Qed.

Lemma split_covers sep s c :
  c ∈ s → c ≠ sep → ∃ e, e ∈ Py.split sep s ∧ c ∈ e.
Proof.
  induction s as [|a s IH]; [by intros ?%not_elem_of_nil|].
  intros Hc Hne. cbn [Py.split].
  destruct (N.eqb_spec a sep) as [->|Ha].
  - apply elem_of_cons in Hc as [->|Hc]; [done|].
    destruct (IH Hc Hne) as (e & He & Hce). exists e. split; [by right|done].
  - pose proof (split_not_nil sep s) as Hnil.
    destruct (Py.split sep s) as [|w ws]; [done|].
    apply elem_of_cons in Hc as [->|Hc].
    + exists (a :: w). split; by left.
    + destruct (IH Hc Hne) as (e & [->|He]%elem_of_cons & Hce).
      * exists (a :: w). split; [by left|by right].
      * exists e. split; [by right|done].
Qed.

Lemma split_without_sep sep s : sep ∉ s → Py.split sep s = [s].
Proof.
  induction s as [|a s IH]; [done|].
  intros [Ha Hs]%not_elem_of_cons. cbn [Py.split].
  destruct (N.eqb_spec a sep) as [->|_]; [done|]. by rewrite IH.
Qed.

Lemma split_app_sep sep s rest :
  sep ∉ s → Py.split sep (s ++ sep :: rest) = s :: Py.split sep rest.
Proof.
  induction s as [|a s IH]; intros Hs.
  - simpl. by rewrite N.eqb_refl.
  - apply not_elem_of_cons in Hs as [Ha Hs]. cbn [app Py.split].
    destruct (N.eqb_spec a sep) as [->|_]; [done|]. by rewrite IH.
Qed.

(** Splitting what was joined gives the pieces back, when no piece holds
    the separator. *)
Lemma split_join sep (l : list str) :
  l ≠ [] → (∀ e, e ∈ l → sep ∉ e) → Py.split sep (Py.join [sep] l) = l.
Proof.
  induction l as [|x l IH]; [done|]. intros _ H.
  destruct l as [|y l].
  - simpl. apply split_without_sep, H. by left.
  - rewrite join_cons_cons /= split_app_sep; [apply H; by left|].
    rewrite IH; [done| |done]. intros e He. apply H. by right.
Qed.

(** Trimmed, non-empty pieces pass through the normalisation unchanged. *)
Lemma normal_pieces_fixed (l : list str) :
  (∀ e, e ∈ l → e ≠ [] ∧ trimmed e) →
  filter (fun e => Py.truthy e) (Py.strip <$> l) = l.
Proof.
  induction l as [|e l IH]; intros H; [done|].
  destruct (H e) as [Hne Htr]; [by left|].
  rewrite fmap_cons (strip_id e Htr) filter_cons_True; [by destruct e|].
  rewrite IH; [|done]. intros e' He'. apply H. by right.
Qed.

End pieces.

(** ** One run of an adapter *)

Ltac run_monad := unfold mbind, M_bind, mret, M_ret; simpl.

Ltac run_adapter w :=
  unfold after_run, report, subprocess_run, logging_info, logging_error,
    logging; run_monad;
  destruct (popen w _) as [rc out err|text|text]; simpl;
  [destruct (rc =? 0)%Z; simpl|..];
  rewrite -?app_assoc; reflexivity.

Section adapters.

Variable w : World.
Implicit Types (path exclude : str) (st : State).

Lemma analyze_with_bandit_run path exclude st :
  let command := bandit_command path exclude in
  analyze_with_bandit w path exclude st
  = (Return (report w (lit "Bandit") None command).1,
     after_run w (lit "Bandit") None command st).
Proof. intros command. unfold analyze_with_bandit. run_adapter w. Qed.

Lemma analyze_with_flake8_run path exclude st :
  let command := flake8_command path exclude in
  analyze_with_flake8 w path exclude st
  = (Return (report w (lit "Flake8") None command).1,
     after_run w (lit "Flake8") None command st).
Proof. intros command. unfold analyze_with_flake8. run_adapter w. Qed.

Lemma analyze_with_pylint_run path exclude st :
  let command := pylint_command path exclude in
  analyze_with_pylint w path exclude st
  = (Return (report w (lit "Pylint") None command).1,
     after_run w (lit "Pylint") None command st).
Proof. intros command. unfold analyze_with_pylint. run_adapter w. Qed.

Lemma analyze_with_pyre_run path exclude st :
  let command := pyre_command path in
  analyze_with_pyre w path exclude st
  = (Return (report w (lit "Pyre") (Some pyre_missing) command).1,
     after_run w (lit "Pyre") (Some pyre_missing) command st).
Proof. intros command. unfold analyze_with_pyre. run_adapter w. Qed.

End adapters.

(** ** The commands, in terms of the normalised entries *)

Section commands.

Implicit Types (path exclude e : str).

Lemma bandit_command_entries path exclude :
  bandit_command path exclude
  = [lit "bandit"; lit "-r"; path; lit "-f"; lit "txt"]
      ++ ((fun e => lit "--exclude=" ++ e) <$> entries exclude).
Proof.
  unfold bandit_command, entries. by rewrite comprehension_entries_fmap.
Qed.

Lemma flake8_command_entries path exclude :
  flake8_command path exclude
  = [lit "flake8"; path; lit "--extend-ignore=E722,B001,B028";
     lit "--select=E,W,F,C90"; lit "--max-complexity=10"]
      ++ (if Py.truthy (entries exclude)
          then [lit "--exclude"; Py.join [comma] (entries exclude)]
          else []).
Proof.
  unfold flake8_command, entries. rewrite comprehension_entries.
  by destruct (Py.truthy _).
Qed.

Lemma pylint_command_entries path exclude :
  pylint_command path exclude
  = [lit "pylint"; path; lit "--disable=C0301,W0703,W0702,broad-except"]
      ++ (if Py.truthy (entries exclude)
          then [lit "--ignore"; Py.join [comma] (entries exclude)]
          else []).
Proof.
  unfold pylint_command, entries. rewrite comprehension_entries.
  by destruct (Py.truthy _).
Qed.

(** An entry is a trimmed piece of the input, and not empty. *)
Lemma elem_of_entries exclude e :
  e ∈ entries exclude
  ↔ e ≠ [] ∧ ∃ raw, raw ∈ Py.split comma exclude ∧ e = Py.strip raw.
Proof.
  unfold entries.
  rewrite list_elem_of_filter list_elem_of_fmap truthy_true.
  split; intros (Hne & raw & H1 & H2); eauto.
Qed.

Lemma entries_trimmed exclude e :
  e ∈ entries exclude → trimmed e ∧ comma ∉ e.
Proof.
  intros (_ & raw & Hraw & ->)%elem_of_entries. split.
  - apply strip_trimmed.
  - intros Hc%elem_of_strip. by apply (split_no_sep comma exclude raw).
Qed.

(** The entries keep the order of the input. *)
Lemma entries_sublist exclude :
  entries exclude `sublist_of` (Py.strip <$> Py.split comma exclude).
Proof. apply sublist_filter. Qed.

(** A normalised input is its own list of entries. *)
Lemma entries_normalised exclude :
  (∀ e, e ∈ Py.split comma exclude → e ≠ [] ∧ trimmed e) →
  entries exclude = Py.split comma exclude.
Proof.
  unfold entries. generalize (Py.split comma exclude) as l.
  induction l as [|e l IH]; intros H; [done|].
  destruct (H e) as [Hne Htr]; [by left|].
  rewrite fmap_cons (strip_id e Htr) filter_cons_True; [by destruct e|].
  rewrite IH; [|done]. intros e' He'. apply H. by right.
Qed.

End commands.

(** ** Exclude strings, piece by piece *)

Section exclude_pieces.

Implicit Types (s e : str) (p : piece) (ps : list piece).

Lemma with_commas_join (l : list str) : with_commas l = Py.join [comma] l.
Proof.
  induction l as [|x l IH]; [done|].
  destruct l as [|y l]; [done|]. rewrite join_cons_cons -IH. done.
Qed.

Lemma rstrip_blank s : Forall (fun c => Py.isspace c) s → Py.rstrip s = [].
Proof.
  induction 1 as [|a s Ha _ IH]; [done|]. simpl. rewrite IH.
  by destruct (Py.isspace a).
Qed.

Lemma lstrip_app_blank (l : str) s :
  Forall (fun c => Py.isspace c) l → Py.lstrip (l ++ s) = Py.lstrip s.
Proof.
  induction 1 as [|a l Ha _ IH]; [done|]. simpl.
  by destruct (Py.isspace a).
Qed.

Lemma rstrip_app_blank s (r : str) :
  Forall (fun c => Py.isspace c) r → Py.rstrip (s ++ r) = Py.rstrip s.
Proof.
  intros Hr. induction s as [|a s IH]; [by apply rstrip_blank|].
  simpl. by rewrite IH.
Qed.

(** Trimming a piece leaves its core. *)
Lemma strip_raw p : well_formed p → Py.strip (raw p) = core p.
Proof.
  intros (Hl & Hr & _ & Hhead & Hlast). unfold raw, Py.strip.
  rewrite lstrip_app_blank; [done|].
  destruct (core p) as [|c e] eqn:Hcore.
  - simpl. by rewrite lstrip_blank.
  - assert (Py.lstrip ((c :: e) ++ trail p) = (c :: e) ++ trail p) as ->.
    { simpl. by rewrite (Hhead c). }
    rewrite rstrip_app_blank; [done|]. by apply rstrip_id.
Qed.

Lemma raw_no_comma p : well_formed p → comma ∉ raw p.
Proof.
  intros (Hl & Hr & Hc & _). unfold raw. rewrite !elem_of_app.
  intros [H|[H|H]]; [|done|].
  - by apply (proj1 (Forall_forall _ _) Hl) in H.
  - by apply (proj1 (Forall_forall _ _) Hr) in H.
Qed.

(** The entries of an exclude string are the non-empty cores of its
    pieces, in their order. *)
Lemma entries_pieces ps :
  ps ≠ [] → Forall well_formed ps →
  entries (with_commas (raw <$> ps)) = cores ps.
Proof.
  intros Hne Hwf. unfold entries, cores.
  rewrite with_commas_join split_join.
  - by destruct ps.
  - intros e (p & -> & Hp)%list_elem_of_fmap.
    apply raw_no_comma. by apply (proj1 (Forall_forall _ _) Hwf).
  - assert (Py.strip <$> (raw <$> ps) = core <$> ps) as ->.
    { clear Hne. induction Hwf as [|p ps Hp _ IH]; [done|].
      by rewrite !fmap_cons IH strip_raw. }
    apply list_filter_iff. intros e. apply truthy_true.
Qed.

Lemma pieces_of_list (l : list str) :
  (∀ s, s ∈ l → comma ∉ s) →
  ∃ ps, Forall well_formed ps ∧ raw <$> ps = l.
Proof.
  induction l as [|s l IH]; intros H; [by exists []|].
  destruct IH as (ps & Hwf & Hps); [intros s' Hs'; apply H; by right|].
  destruct (strip_decompose s) as (a & b & Hs & Ha & Hb).
  exists ({| lead := a; core := Py.strip s; trail := b |} :: ps).
  split; [|by rewrite fmap_cons Hps /raw /= -Hs].
  constructor; [|done]. split; [done|]. split; [done|]. split.
  - intros Hc%elem_of_strip. apply (H s); [by left|done].
  - apply strip_trimmed.
Qed.

(** Every exclude string is made of well-formed pieces separated by
    commas. *)
Lemma exclude_has_pieces (exclude : str) :
  ∃ ps, ps ≠ [] ∧ Forall well_formed ps
        ∧ exclude = with_commas (raw <$> ps).
Proof.
  destruct (pieces_of_list (Py.split comma exclude)) as (ps & Hwf & Hps).
  { intros s Hs. by apply (split_no_sep comma exclude). }
  exists ps. split; [|split; [done|]].
  - intros ->. by apply (split_not_nil comma exclude).
  - by rewrite Hps with_commas_join join_split.
Qed.

End exclude_pieces.

(** ** The parser and the dispatch *)

Lemma parse_args_inv argv args st :
  (parse_args setup_argparse argv st).1 = Return args →
  parse_args setup_argparse argv st = (Return args, st)
  ∧ given_path argv = Some (path args)
  ∧ report_file args = given_report_file argv
  ∧ exclude args = default [] (given_exclude argv)
  ∧ tool args ∈ tool_choices setup_argparse.
Proof.
  unfold parse_args. destruct (given_path argv) as [p|]; [|done].
  destruct (given_tool argv) as [t|]; run_monad.
  - case_bool_decide as Ht; simpl; [|done].
    intros [= <-]. done.
  - intros [= <-]. repeat split. by left.
Qed.

Lemma select_choices (t : str) : t ∈ tool_choices setup_argparse → select t ≠ Invalid.
Proof.
  simpl.
  rewrite !elem_of_cons. intros [->|[->|[->|[->|[]%not_elem_of_nil]]]]; done.
Qed.

Lemma select_cases (t : str) :
  match select t with
  | Bandit => t = lit "bandit"
  | Flake8 => t = lit "flake8"
  | Pylint => t = lit "pylint"
  | PyreCheck => t = lit "pyre-check"
  | Invalid => t ∉ tool_choices setup_argparse
  end.
Proof.
  unfold select. repeat (case_bool_decide; [done|]).
  simpl. rewrite !not_elem_of_cons. repeat split; try done.
  apply not_elem_of_nil.
Qed.

Lemma choose_tool_run w args st :
  select (tool args) ≠ Invalid →
  let b := select (tool args) in
  choose_tool w args st
  = (Return (report w (title b) (missing b) (command_of args)).1,
     after_run w (title b) (missing b) (command_of args) st).
Proof.
  intros H; cbv zeta. unfold choose_tool, command_of.
  destruct (select (tool args)).
  - apply analyze_with_bandit_run.
  - apply analyze_with_flake8_run.
  - apply analyze_with_pylint_run.
  - apply analyze_with_pyre_run.
  - done.
Qed.

Lemma main_run w argv args st :
  (parse_args setup_argparse argv st).1 = Return args →
  os_path_exists w (path args) = true →
  main w argv st
  = (analysis_results ← choose_tool w args;
     output_results w args analysis_results) st.
Proof.
  intros (Hp & _)%parse_args_inv Hex. unfold main.
  unfold mbind at 1. unfold M_bind at 1. rewrite Hp.
  unfold check_path. rewrite Hex. done.
Qed.

(** ** The claims *)

(** C5. When the target path does not exist, [main] logs the error and exits
    with status 1; nothing was handed to [subprocess.run], nothing was
    printed and no file was written. *)
Theorem missing_path_exits_1 w argv args st :
  (parse_args setup_argparse argv st).1 = Return args →
  os_path_exists w (path args) = false →
  main w argv st
  = (SysExit 1,
     {| logged := logged st
          ++ [(ERROR, lit "Error: Path '" ++ path args
                        ++ lit "' does not exist.")];
        invoked := invoked st; stdout := stdout st; files := files st |})
  ∧ exit_status (main w argv st).1 = 1%Z
  ∧ invoked (main w argv st).2 = invoked st.
Proof.
  intros (Hp & _)%parse_args_inv Hex.
  assert (main w argv st
          = (SysExit 1,
             {| logged := logged st
                  ++ [(ERROR, lit "Error: Path '" ++ path args
                                ++ lit "' does not exist.")];
                invoked := invoked st; stdout := stdout st;
                files := files st |})) as ->; [|done].
  unfold main. unfold mbind at 1. unfold M_bind at 1. rewrite Hp.
  unfold check_path. rewrite Hex. done.
Qed.

Lemma missing_path_exits_1_witness :
  let argv := command_line (lit "/nowhere") None None None in
  exit_status (main quiet_world argv initial).1 = 1%Z
  ∧ invoked (main quiet_world argv initial).2 = [].
Proof.
  intros argv.
  apply (missing_path_exits_1 quiet_world argv
           {| path := lit "/nowhere"; report_file := None; exclude := [];
              tool := lit "bandit" |} initial); reflexivity.
Defined.

(** C8. A namespace that [parse_args] returns names one of the four tools,
    so the dispatch of [main] runs the adapter of that name, returns its
    text, and never takes the final [else] branch. *)
Theorem parsed_tool_dispatches argv args st0 :
  (parse_args setup_argparse argv st0).1 = Return args →
  tool args ∈ tool_choices setup_argparse
  ∧ select (tool args) ≠ Invalid
  ∧ ∀ w st,
      (∃ r st', choose_tool w args st = (Return r, st')
                ∧ invoked st' = invoked st ++ [command_of args])
      ∧ ((tool args = lit "bandit"
          ∧ choose_tool w args
            = analyze_with_bandit w (path args) (exclude args))
         ∨ (tool args = lit "flake8"
            ∧ choose_tool w args
              = analyze_with_flake8 w (path args) (exclude args))
         ∨ (tool args = lit "pylint"
            ∧ choose_tool w args
              = analyze_with_pylint w (path args) (exclude args))
         ∨ (tool args = lit "pyre-check"
            ∧ choose_tool w args
              = analyze_with_pyre w (path args) (exclude args))).
Proof.
  intros (_ & _ & _ & _ & Ht)%parse_args_inv.
  pose proof (select_choices _ Ht) as Hs. do 2 (split; [done|]).
  intros w st. split.
  - eexists _, _. split; [by apply choose_tool_run|done].
  - pose proof (select_cases (tool args)) as Hc. unfold choose_tool.
    destruct (select (tool args)); [by left|by right; left
      |by right; right; left|by right; right; right|done].
Qed.

Lemma parsed_tool_dispatches_witness :
  let argv := command_line (lit "/tmp/proj") None None (Some (lit "pylint")) in
  let args := {| path := lit "/tmp/proj"; report_file := None; exclude := [];
                 tool := lit "pylint" |} in
  (parse_args setup_argparse argv initial).1 = Return args ∧ select (tool args) ≠ Invalid.
Proof.
  intros argv args. split; [reflexivity|].
  apply (parsed_tool_dispatches argv args initial). reflexivity.
Defined.

Lemma output_results_invoked w args r st :
  invoked (output_results w args r st).2 = invoked st.
Proof.
  unfold output_results. destruct (report_target args) as [f|]; [|done].
  by destruct (write_file w f r).
Qed.

Lemma main_invoked w argv args st :
  (parse_args setup_argparse argv st).1 = Return args →
  os_path_exists w (path args) = true →
  invoked (main w argv st).2 = invoked st ++ [command_of args].
Proof.
  intros Hp Hex. rewrite (main_run w argv args st Hp Hex).
  apply parse_args_inv in Hp as (_ & _ & _ & _ & Ht%select_choices).
  unfold mbind, M_bind. rewrite (choose_tool_run w args st Ht).
  by rewrite output_results_invoked.
Qed.

(** C2. The three adapters that apply the exclude list hand its trimmed,
    non-empty entries to the tool.  Take an exclude string made of pieces
    separated by commas, each piece a core with white space around it:
    [bandit] gets one [--exclude=<core>] argument for each core that is
    not empty, [flake8] one [--exclude] argument followed by those cores
    with commas between them, [pylint] the same after [--ignore], and
    neither gets its flag when every core is empty.  Every exclude string is
    of that form, and for [a, b ,c] the cores are [a], [b], [c]. *)
Theorem exclude_is_normalised w (path : str) st :
  (∀ ps,
     ps ≠ [] → Forall well_formed ps →
     let exclude := with_commas (raw <$> ps) in
     invoked (analyze_with_bandit w path exclude st).2
     = invoked st
         ++ [[lit "bandit"; lit "-r"; path; lit "-f"; lit "txt"]
               ++ ((fun e => lit "--exclude=" ++ e) <$> cores ps)]
     ∧ invoked (analyze_with_flake8 w path exclude st).2
       = invoked st
           ++ [[lit "flake8"; path; lit "--extend-ignore=E722,B001,B028";
                lit "--select=E,W,F,C90"; lit "--max-complexity=10"]
                 ++ match cores ps with
                    | [] => []
                    | _ :: _ => [lit "--exclude"; with_commas (cores ps)]
                    end]
     ∧ invoked (analyze_with_pylint w path exclude st).2
       = invoked st
           ++ [[lit "pylint"; path;
                lit "--disable=C0301,W0703,W0702,broad-except"]
                 ++ match cores ps with
                    | [] => []
                    | _ :: _ => [lit "--ignore"; with_commas (cores ps)]
                    end])
  ∧ (∀ exclude : str,
       ∃ ps, ps ≠ [] ∧ Forall well_formed ps
             ∧ exclude = with_commas (raw <$> ps))
  ∧ invoked (analyze_with_bandit w path (lit "a, b ,c") st).2
    = invoked st
        ++ [[lit "bandit"; lit "-r"; path; lit "-f"; lit "txt";
             lit "--exclude=a"; lit "--exclude=b"; lit "--exclude=c"]]
  ∧ invoked (analyze_with_flake8 w path (lit "a, b ,c") st).2
    = invoked st
        ++ [[lit "flake8"; path; lit "--extend-ignore=E722,B001,B028";
             lit "--select=E,W,F,C90"; lit "--max-complexity=10";
             lit "--exclude"; lit "a,b,c"]]
  ∧ invoked (analyze_with_pylint w path (lit "a, b ,c") st).2
    = invoked st
        ++ [[lit "pylint"; path;
             lit "--disable=C0301,W0703,W0702,broad-except";
             lit "--ignore"; lit "a,b,c"]].
Proof.
  split; [|split; [apply exclude_has_pieces|]].
  - intros ps Hne Hwf exclude.
    rewrite analyze_with_bandit_run analyze_with_flake8_run
      analyze_with_pylint_run /=.
    rewrite bandit_command_entries flake8_command_entries
      pylint_command_entries.
    subst exclude. rewrite (entries_pieces ps Hne Hwf) -with_commas_join.
    by destruct (cores ps).
  - by rewrite analyze_with_bandit_run analyze_with_flake8_run
         analyze_with_pylint_run.
Qed.

Lemma exclude_is_normalised_witness :
  let ps := [ {| lead := lit " "; core := lit "tests"; trail := lit "  " |};
              {| lead := lit " "; core := []; trail := [] |};
              {| lead := []; core := lit "build dir"; trail := lit " " |} ] in
  with_commas (raw <$> ps) = lit " tests  , ,build dir "
  ∧ invoked (analyze_with_bandit quiet_world (lit "src")
               (lit " tests  , ,build dir ") initial).2
    = [[lit "bandit"; lit "-r"; lit "src"; lit "-f"; lit "txt";
        lit "--exclude=tests"; lit "--exclude=build dir"]]
  ∧ invoked (analyze_with_flake8 quiet_world (lit "src")
               (lit " tests  , ,build dir ") initial).2
    = [[lit "flake8"; lit "src"; lit "--extend-ignore=E722,B001,B028";
        lit "--select=E,W,F,C90"; lit "--max-complexity=10";
        lit "--exclude"; lit "tests,build dir"]].
Proof.
  intros ps. split; [reflexivity|].
  assert (Forall well_formed ps) as Hwf.
  { repeat constructor; simpl; try done;
      try (by intros ?%not_elem_of_nil);
      try (intros c [= <-]; reflexivity);
      rewrite ?elem_of_cons; intros H;
      repeat (destruct H as [H|H]; [done|]); by apply not_elem_of_nil in H. }
  destruct (exclude_is_normalised quiet_world (lit "src") initial)
    as [H _].
  destruct (H ps) as (Hb & Hf & _); [done|exact Hwf|].
  split; [exact Hb|exact Hf].
Defined.

(** C10. The entries reach the tools in the order of the input.  For an
    exclude string made of pieces separated by commas, each a core with
    white space around it, the [--exclude=] arguments of [bandit], the
    [--exclude] value of [flake8] and the [--ignore] value of [pylint] list
    the non-empty cores in the order of the pieces.  And an input that is
    already normal, non-empty entries without white space at their ends and
    commas between them, comes back unchanged as the value of the
    [--exclude] flag of [flake8] and of the [--ignore] flag of [pylint]. *)
Theorem exclude_order_round_trip w (path : str) st :
  (∀ ps,
     ps ≠ [] → Forall well_formed ps →
     let exclude := with_commas (raw <$> ps) in
     bandit_command path exclude
     = [lit "bandit"; lit "-r"; path; lit "-f"; lit "txt"]
         ++ ((fun e => lit "--exclude=" ++ e) <$> cores ps)
     ∧ (cores ps ≠ [] →
        flake8_command path exclude
        = [lit "flake8"; path; lit "--extend-ignore=E722,B001,B028";
           lit "--select=E,W,F,C90"; lit "--max-complexity=10";
           lit "--exclude"; with_commas (cores ps)]
        ∧ pylint_command path exclude
          = [lit "pylint"; path;
             lit "--disable=C0301,W0703,W0702,broad-except";
             lit "--ignore"; with_commas (cores ps)]))
  ∧ (∀ es : list str,
       es ≠ [] →
       (∀ e, e ∈ es → e ≠ [] ∧ trimmed e ∧ comma ∉ e) →
       let exclude := with_commas es in
       invoked (analyze_with_bandit w path exclude st).2
       = invoked st
           ++ [[lit "bandit"; lit "-r"; path; lit "-f"; lit "txt"]
                 ++ ((fun e => lit "--exclude=" ++ e) <$> es)]
       ∧ invoked (analyze_with_flake8 w path exclude st).2
         = invoked st
             ++ [[lit "flake8"; path; lit "--extend-ignore=E722,B001,B028";
                  lit "--select=E,W,F,C90"; lit "--max-complexity=10";
                  lit "--exclude"; exclude]]
       ∧ invoked (analyze_with_pylint w path exclude st).2
         = invoked st
             ++ [[lit "pylint"; path;
                  lit "--disable=C0301,W0703,W0702,broad-except";
                  lit "--ignore"; exclude]])
  ∧ bandit_command path (lit " zeta ,alpha,  mid dle ")
    = [lit "bandit"; lit "-r"; path; lit "-f"; lit "txt";
       lit "--exclude=zeta"; lit "--exclude=alpha"; lit "--exclude=mid dle"]
  ∧ flake8_command path (lit " zeta ,alpha,  mid dle ")
    = [lit "flake8"; path; lit "--extend-ignore=E722,B001,B028";
       lit "--select=E,W,F,C90"; lit "--max-complexity=10";
       lit "--exclude"; lit "zeta,alpha,mid dle"]
  ∧ pylint_command path (lit " zeta ,alpha,  mid dle ")
    = [lit "pylint"; path; lit "--disable=C0301,W0703,W0702,broad-except";
       lit "--ignore"; lit "zeta,alpha,mid dle"].
Proof.
  split; [|split; [|done]].
  - intros ps Hne Hwf exclude. subst exclude.
    rewrite bandit_command_entries flake8_command_entries
      pylint_command_entries (entries_pieces ps Hne Hwf) -with_commas_join.
    split; [done|]. by destruct (cores ps).
  - intros es Hne Hes exclude. subst exclude.
    assert (entries (with_commas es) = es) as Hent.
    { unfold entries. rewrite with_commas_join split_join; [done| |].
      - intros e He. by apply Hes.
      - apply normal_pieces_fixed. intros e He.
        by destruct (Hes e He) as (? & ? & _). }
    rewrite analyze_with_bandit_run analyze_with_flake8_run
      analyze_with_pylint_run /=.
    rewrite bandit_command_entries flake8_command_entries
      pylint_command_entries Hent -with_commas_join.
    by destruct es.
Qed.

Lemma exclude_order_round_trip_witness :
  let es := [lit "tests"; lit "my build"; lit "docs"] in
  with_commas es = lit "tests,my build,docs"
  ∧ (∀ e, e ∈ es → e ≠ [] ∧ trimmed e ∧ comma ∉ e)
  ∧ invoked (analyze_with_pylint quiet_world (lit "src")
               (lit "tests,my build,docs") initial).2
    = [[lit "pylint"; lit "src";
        lit "--disable=C0301,W0703,W0702,broad-except";
        lit "--ignore"; lit "tests,my build,docs"]]
  ∧ invoked (analyze_with_bandit quiet_world (lit "src")
               (lit "tests,my build,docs") initial).2
    = [[lit "bandit"; lit "-r"; lit "src"; lit "-f"; lit "txt";
        lit "--exclude=tests"; lit "--exclude=my build";
        lit "--exclude=docs"]].
Proof.
  intros es. split; [reflexivity|].
  assert (∀ e, e ∈ es → e ≠ [] ∧ trimmed e ∧ comma ∉ e) as H.
  { intros e. unfold es. rewrite !elem_of_cons.
    intros [->|[->|[->|[]%not_elem_of_nil]]];
      (split; [done|]); (split; [split; intros c [= <-]; reflexivity|]);
      rewrite ?elem_of_cons; intros Hc;
      repeat (destruct Hc as [Hc|Hc]; [done|]);
      by apply not_elem_of_nil in Hc. }
  split; [exact H|].
  destruct (exclude_order_round_trip quiet_world (lit "src") initial)
    as (_ & Hrt & _).
  destruct (Hrt es) as (Hb & _ & Hp); [done|exact H|].
  split; [exact Hp|exact Hb].
Defined.

(** C3. For the path [/tmp/proj], the tool [flake8] and the exclude list
    [tests,build], the one process [main] starts is [flake8 /tmp/proj]
    with the three fixed options, then [--exclude] and [tests,build] as two
    consecutive arguments. *)
Theorem flake8_scenario w (r : option str) st :
  os_path_exists w (lit "/tmp/proj") = true →
  let argv := command_line (lit "/tmp/proj") r
                (Some (lit "tests,build")) (Some (lit "flake8")) in
  invoked (main w argv st).2
  = invoked st
      ++ [[lit "flake8"; lit "/tmp/proj"; lit "--extend-ignore=E722,B001,B028";
           lit "--select=E,W,F,C90"; lit "--max-complexity=10";
           lit "--exclude"; lit "tests,build"]].
Proof.
  intros Hex argv.
  by rewrite (main_invoked w argv
                {| path := lit "/tmp/proj"; report_file := r;
                   exclude := lit "tests,build"; tool := lit "flake8" |}).
Qed.

Lemma flake8_scenario_witness :
  os_path_exists quiet_world (lit "/tmp/proj") = true
  ∧ head (invoked (main quiet_world
                     (command_line (lit "/tmp/proj") None
                        (Some (lit "tests,build")) (Some (lit "flake8")))
                     initial).2)
    = Some [lit "flake8"; lit "/tmp/proj"; lit "--extend-ignore=E722,B001,B028";
            lit "--select=E,W,F,C90"; lit "--max-complexity=10";
            lit "--exclude"; lit "tests,build"].
Proof.
  split; [reflexivity|].
  by rewrite (flake8_scenario quiet_world None initial).
Defined.

(** C4. The pyre-check adapter never looks at the exclude list: whatever it
    is, the adapter behaves as for the empty list, the command it starts is
    [pyre], [analyze] and the path, and that is the command it logs. *)
Theorem pyre_ignores_exclude w (path exclude : str) st :
  analyze_with_pyre w path exclude st = analyze_with_pyre w path [] st
  ∧ invoked (analyze_with_pyre w path exclude st).2
    = invoked st ++ [[lit "pyre"; lit "analyze"; path]]
  ∧ ∃ rest,
      logged (analyze_with_pyre w path exclude st).2
      = logged st
          ++ (INFO, lit "Running Pyre with command: pyre analyze "
                      ++ Shlex.quote path) :: rest.
Proof.
  rewrite !analyze_with_pyre_run /=. repeat split. by eexists.
Qed.

(** ** Failures of the external tool *)

Lemma report_failed w (t : str) m (command : list str) rc out err :
  popen w command = Completed rc out err →
  rc ≠ 0%Z →
  (report w t m command).1
  = t ++ lit " analysis failed: " ++ str_CalledProcessError w rc command
      ++ [newline] ++ err.
Proof.
  intros Hp Hrc. unfold report. rewrite Hp.
  destruct (Z.eqb_spec rc 0); [done|]. simpl. by rewrite -!app_assoc.
Qed.

Lemma report_not_found w (t : str) m (command : list str) text :
  popen w command = NoSuchFile text →
  (report w t m command).1
  = from_option id (lit "Error running " ++ t ++ lit ": " ++ text) m.
Proof. intros Hp. unfold report. by rewrite Hp. Qed.

(** ** Routing of the result *)

Lemma report_target_Some args (f : str) :
  report_target args = Some f ↔ report_file args = Some f ∧ f ≠ [].
Proof.
  unfold report_target. destruct (report_file args) as [[|c g]|]; simpl.
  - split; [done|]. by intros [[= <-] ?].
  - split; [by intros [= <-]|by intros [[= <-] _]].
  - split; [done|by intros [? _]].
Qed.

Lemma write_file_Written w (f r : str) :
  write_file w f r = Written → f ≠ [].
Proof. unfold write_file. by destruct f. Qed.

Lemma main_routes w argv args st r st1 :
  (parse_args setup_argparse argv st).1 = Return args →
  os_path_exists w (path args) = true →
  choose_tool w args st = (Return r, st1) →
  main w argv st = output_results w args r st1.
Proof.
  intros Hp Hex Hr. rewrite (main_run w argv args st Hp Hex).
  unfold mbind, M_bind. by rewrite Hr.
Qed.

(** C7, as the code has it.  When the executable is not found
    ([FileNotFoundError]), each adapter returns a text: the bandit, flake8
    and pylint adapters the generic [Error running <Tool>: ...] of their
    last handler, the pyre-check adapter the fixed text of its own handler.
    When the executable is there but cannot be started (any other error of
    the start, a [PermissionError] for one), all four adapters, the
    pyre-check adapter too, return the generic text.  Whatever the process
    does, every adapter returns a text and never ends the program. *)
Theorem missing_executable_is_reported w (path exclude text : str) st :
  (popen w (bandit_command path exclude) = NoSuchFile text →
   (analyze_with_bandit w path exclude st).1
   = Return (lit "Error running Bandit: " ++ text))
  ∧ (popen w (flake8_command path exclude) = NoSuchFile text →
     (analyze_with_flake8 w path exclude st).1
     = Return (lit "Error running Flake8: " ++ text))
  ∧ (popen w (pylint_command path exclude) = NoSuchFile text →
     (analyze_with_pylint w path exclude st).1
     = Return (lit "Error running Pylint: " ++ text))
  ∧ (popen w (pyre_command path) = NoSuchFile text →
     (analyze_with_pyre w path exclude st).1
     = Return
         (lit "Pyre is not installed or not in PATH. Please install Pyre."))
  ∧ (popen w (bandit_command path exclude) = Failed text →
     (analyze_with_bandit w path exclude st).1
     = Return (lit "Error running Bandit: " ++ text))
  ∧ (popen w (flake8_command path exclude) = Failed text →
     (analyze_with_flake8 w path exclude st).1
     = Return (lit "Error running Flake8: " ++ text))
  ∧ (popen w (pylint_command path exclude) = Failed text →
     (analyze_with_pylint w path exclude st).1
     = Return (lit "Error running Pylint: " ++ text))
  ∧ (popen w (pyre_command path) = Failed text →
     (analyze_with_pyre w path exclude st).1
     = Return (lit "Error running Pyre: " ++ text))
  ∧ ∀ adapter,
      adapter ∈ [analyze_with_bandit; analyze_with_flake8;
                 analyze_with_pylint; analyze_with_pyre] →
      ∃ r, (adapter w path exclude st).1 = Return r.
Proof.
  rewrite analyze_with_bandit_run analyze_with_flake8_run
    analyze_with_pylint_run analyze_with_pyre_run /=.
  repeat (split; [intros Hp; unfold report; by rewrite Hp|]).
  intros adapter. rewrite !elem_of_cons.
  intros [->|[->|[->|[->|[]%not_elem_of_nil]]]].
  - rewrite analyze_with_bandit_run. by eexists.
  - rewrite analyze_with_flake8_run. by eexists.
  - rewrite analyze_with_pylint_run. by eexists.
  - rewrite analyze_with_pyre_run. by eexists.
Qed.

Lemma missing_executable_is_reported_witness :
  popen bare_world (pyre_command (lit "src"))
  = NoSuchFile (lit "[Errno 2] No such file or directory")
  ∧ (analyze_with_pyre bare_world (lit "src") (lit "venv") initial).1
    = Return (lit "Pyre is not installed or not in PATH. Please install Pyre.")
  ∧ (analyze_with_bandit bare_world (lit "src") (lit "venv") initial).1
    = Return (lit "Error running Bandit: [Errno 2] No such file or directory").
Proof.
  split; [reflexivity|].
  destruct (missing_executable_is_reported bare_world (lit "src") (lit "venv")
              (lit "[Errno 2] No such file or directory") initial)
    as (Hb & _ & _ & Hp & _).
  split; [apply Hp|apply Hb]; reflexivity.
Defined.

(** C7 as stated fails for an executable that is there but cannot be
    started: [subprocess.run] raises a [PermissionError], which the handler
    of the pyre-check adapter for [FileNotFoundError] does not catch, and the
    adapter returns the generic text, not the text that Pyre is not
    installed. *)
Lemma pyre_not_startable_counterexample :
  popen unstartable_world (pyre_command (lit "src"))
  = Failed (lit "[Errno 13] Permission denied: 'pyre'")
  ∧ (analyze_with_pyre unstartable_world (lit "src") [] initial).1
    = Return (lit "Error running Pyre: [Errno 13] Permission denied: 'pyre'")
  ∧ (analyze_with_pyre unstartable_world (lit "src") [] initial).1
    ≠ Return (lit "Pyre is not installed or not in PATH. Please install Pyre.").
Proof. split; [reflexivity|]. split; [reflexivity|done]. Qed.

(** C9. An empty [--report_file] value is false in the test of [main]: the
    result is printed, the exit status is 0, no file is written, and the
    run is the same whatever the file system would answer to a write. *)
Theorem empty_report_file_is_absent w argv args st :
  (parse_args setup_argparse argv st).1 = Return args →
  os_path_exists w (path args) = true →
  report_file args = Some [] →
  (∃ r st1,
     choose_tool w args st = (Return r, st1)
     ∧ main w argv st
       = (Return tt,
          {| logged := logged st1; invoked := invoked st1;
             stdout := stdout st ++ r ++ [newline]; files := files st |}))
  ∧ exit_status (main w argv st).1 = 0%Z
  ∧ ∀ fw,
      main {| os_path_exists := os_path_exists w; popen := popen w;
              str_CalledProcessError := str_CalledProcessError w;
              fs_write := fw |} argv st
      = main w argv st.
Proof.
  intros Hp Hex Hrf.
  pose proof Hp as (_ & _ & _ & _ & Ht%select_choices)%parse_args_inv.
  assert (∀ w', os_path_exists w' (path args) = true →
            main w' argv st
            = (Return tt,
               {| logged := logged (choose_tool w' args st).2;
                  invoked := invoked (choose_tool w' args st).2;
                  stdout := stdout st
                    ++ (report w' (title (select (tool args)))
                          (missing (select (tool args)))
                          (command_of args)).1 ++ [newline];
                  files := files st |})) as Hmain.
  { intros w' Hex'. rewrite (main_run w' argv args st Hp Hex').
    unfold mbind, M_bind. rewrite (choose_tool_run w' args st Ht).
    unfold output_results, report_target. by rewrite Hrf. }
  split; [|split].
  - eexists _, _. split; [by apply choose_tool_run|].
    rewrite (Hmain w Hex). by rewrite (choose_tool_run w args st Ht).
  - by rewrite (Hmain w Hex).
  - intros fw. rewrite (Hmain w Hex) Hmain; [done|].
    by rewrite !choose_tool_run.
Qed.

Lemma empty_report_file_is_absent_witness :
  stdout (main failing_world
            (command_line (lit "/tmp/proj") (Some []) None None) initial).2
  ≠ []
  ∧ exit_status
      (main failing_world
         (command_line (lit "/tmp/proj") (Some []) None None) initial).1
    = 0%Z.
Proof.
  split; [done|].
  apply (empty_report_file_is_absent failing_world
           (command_line (lit "/tmp/proj") (Some []) None None)
           {| path := lit "/tmp/proj"; report_file := Some [];
              exclude := []; tool := lit "bandit" |} initial); reflexivity.
Defined.

Lemma choose_tool_frame w args st r st1 :
  choose_tool w args st = (Return r, st1) →
  stdout st1 = stdout st ∧ files st1 = files st.
Proof.
  destruct (decide (select (tool args) = Invalid)) as [Hi|Hs].
  - unfold choose_tool. by rewrite Hi.
  - rewrite (choose_tool_run w args st Hs). by intros [= _ <-].
Qed.

Lemma output_results_print w args r st :
  report_target args = None →
  output_results w args r st
  = (Return tt,
     {| logged := logged st; invoked := invoked st;
        stdout := stdout st ++ r ++ [newline]; files := files st |}).
Proof. unfold output_results. by intros ->. Qed.

Lemma output_results_written w args (f r : str) st :
  report_target args = Some f →
  write_file w f r = Written →
  output_results w args r st
  = (Return tt,
     {| logged := logged st ++ [(INFO, lit "Report saved to " ++ f)];
        invoked := invoked st; stdout := stdout st;
        files := <[f := r]> (files st) |}).
Proof. unfold output_results. by intros -> ->. Qed.

Lemma output_results_failed w args (f r : str) st :
  report_target args = Some f →
  write_file w f r ≠ Written →
  (output_results w args r st).1 = SysExit 1.
Proof.
  unfold output_results. intros ->. by destruct (write_file w f r).
Qed.

(** C1, as the code has it.  When the external process exits with a
    non-zero status, the adapter that [main] selected returns the text
    [<Tool> analysis failed: <str(e)>], a newline and the captured standard
    error, and [main] goes on to route that text.  The exit status is 0 when
    the text is printed or the report file is written, and 1 when writing
    the report file fails. *)
Theorem tool_failure_is_reported w argv args st rc (out err : str) :
  (parse_args setup_argparse argv st).1 = Return args →
  os_path_exists w (path args) = true →
  popen w (command_of args) = Completed rc out err →
  rc ≠ 0%Z →
  ∃ t st1,
    (tool args = lit "bandit" ∧ t = lit "Bandit"
     ∨ tool args = lit "flake8" ∧ t = lit "Flake8"
     ∨ tool args = lit "pylint" ∧ t = lit "Pylint"
     ∨ tool args = lit "pyre-check" ∧ t = lit "Pyre")
    ∧ let text := t ++ lit " analysis failed: "
                    ++ str_CalledProcessError w rc (command_of args)
                    ++ [newline] ++ err in
      choose_tool w args st = (Return text, st1)
      ∧ main w argv st = output_results w args text st1
      ∧ (report_target args = None
         ∨ (∃ f, report_target args = Some f ∧ write_file w f text = Written) →
         exit_status (main w argv st).1 = 0%Z)
      ∧ ((∃ f, report_target args = Some f ∧ write_file w f text ≠ Written) →
         exit_status (main w argv st).1 = 1%Z).
Proof.
  intros Hp Hex Hrun Hrc.
  pose proof Hp as (_ & _ & _ & _ & Ht%select_choices)%parse_args_inv.
  pose proof (choose_tool_run w args st Ht) as Hc. cbv zeta in Hc.
  rewrite (report_failed _ _ _ _ _ _ _ Hrun Hrc) in Hc.
  eexists (title (select (tool args))), _. split.
  { pose proof (select_cases (tool args)) as Hs.
    destruct (select (tool args)); [by left|by right; left
      |by right; right; left|by right; right; right|done]. }
  cbv zeta. split; [exact Hc|].
  rewrite (main_routes w argv args st _ _ Hp Hex Hc).
  split; [done|]. split.
  - intros [Hn|(f & Hf & Hw)].
    + by rewrite output_results_print.
    + by rewrite (output_results_written _ _ f).
  - intros (f & Hf & Hw). by rewrite (output_results_failed _ _ f).
Qed.

Lemma tool_failure_is_reported_witness :
  popen failing_world (bandit_command (lit "/tmp/proj") [])
  = Completed 1 (lit "partial") (lit "boom")
  ∧ exit_status
      (main failing_world (command_line (lit "/tmp/proj") None None None)
         initial).1
    = 0%Z.
Proof.
  split; [reflexivity|].
  destruct (tool_failure_is_reported failing_world
              (command_line (lit "/tmp/proj") None None None)
              {| path := lit "/tmp/proj"; report_file := None; exclude := [];
                 tool := lit "bandit" |}
              initial 1 (lit "partial") (lit "boom"))
    as (t & st1 & _ & _ & _ & H0 & _); [reflexivity..|done|].
  apply H0. by left.
Defined.

(** C1 as stated fails: [bandit] exits with status 1 and the report file
    cannot be opened, so the run ends with exit status 1, not 0. *)
Lemma tool_failure_exit_status_counterexample :
  popen failing_world (bandit_command (lit "/tmp/proj") [])
  = Completed 1 (lit "partial") (lit "boom")
  ∧ exit_status
      (main failing_world
         (command_line (lit "/tmp/proj") (Some (lit "report.txt")) None None)
         initial).1
    = 1%Z.
Proof. split; reflexivity. Qed.

(** C6, as the code has it.  Whatever text the adapter returned: when
    [--report_file] names a file that can be written, the run ends normally
    and the file holds exactly that text, replacing what it held, with
    nothing printed; when [--report_file] is omitted, the run ends normally
    and standard output receives that text followed by the newline that
    [print] adds, with no file written. *)
Theorem result_is_routed w argv args st (r : str) st1 :
  (parse_args setup_argparse argv st).1 = Return args →
  os_path_exists w (path args) = true →
  choose_tool w args st = (Return r, st1) →
  (∀ f, report_file args = Some f →
        write_file w f r = Written →
        (main w argv st).1 = Return tt
        ∧ files (main w argv st).2 !! f = Some r
        ∧ stdout (main w argv st).2 = stdout st)
  ∧ (report_file args = None →
     (main w argv st).1 = Return tt
     ∧ stdout (main w argv st).2 = stdout st ++ r ++ [newline]
     ∧ files (main w argv st).2 = files st).
Proof.
  intros Hp Hex Hc. rewrite (main_routes w argv args st r st1 Hp Hex Hc).
  destruct (choose_tool_frame w args st r st1 Hc) as [Hout Hfiles]. split.
  - intros f Hf Hw.
    rewrite (output_results_written w args f r st1); [|done|].
    + apply report_target_Some. split; [done|]. by eapply write_file_Written.
    + simpl. by rewrite lookup_insert_eq.
  - intros Hn. rewrite output_results_print; [|by rewrite /= Hout Hfiles].
    unfold report_target. by rewrite Hn.
Qed.

Lemma result_is_routed_witness :
  files (main quiet_world
           (command_line (lit "/tmp/proj") (Some (lit "out.txt")) None None)
           initial).2 !! lit "out.txt"
  = Some (lit "ok").
Proof.
  destruct (result_is_routed quiet_world
              (command_line (lit "/tmp/proj") (Some (lit "out.txt")) None None)
              {| path := lit "/tmp/proj";
                 report_file := Some (lit "out.txt"); exclude := [];
                 tool := lit "bandit" |}
              initial (lit "ok")
              (after_run quiet_world (lit "Bandit") None
                 (bandit_command (lit "/tmp/proj") []) initial))
    as [Hfile _]; [reflexivity..|].
  by apply (Hfile (lit "out.txt")).
Defined.

(** C6 as stated fails on standard output: the adapter returns [ok], and
    what is printed is [ok] and a newline, not [ok] alone. *)
Lemma stdout_newline_counterexample :
  choose_tool quiet_world
    {| path := lit "/tmp/proj"; report_file := None; exclude := [];
       tool := lit "bandit" |} initial
  = (Return (lit "ok"),
     after_run quiet_world (lit "Bandit") None
       (bandit_command (lit "/tmp/proj") []) initial)
  ∧ stdout (main quiet_world
              (command_line (lit "/tmp/proj") None None None) initial).2
    = lit "ok" ++ [newline]
  ∧ stdout (main quiet_world
              (command_line (lit "/tmp/proj") None None None) initial).2
    ≠ lit "ok".
Proof. split; [reflexivity|]. split; [reflexivity|done]. Qed.


(** * Further properties of the program *)


(** ** The exclude list, further *)

Lemma entries_nil_blank (exclude : str) :
  entries exclude = []
  ↔ Forall (fun c => Py.isspace c ∨ c = comma) exclude.
Proof.
  rewrite Forall_forall. split.
  - intros Hes c Hc. destruct (decide (c = comma)) as [|Hne]; [by right|].
    left. destruct (split_covers comma exclude c Hc Hne) as (raw & Hraw & Hcr).
    assert (Py.strip raw = []) as Hs%strip_nil.
    { destruct (Py.strip raw) as [|a t] eqn:Hstrip; [done|].
      assert ((a :: t) ∈ entries exclude) as Hin; [|by rewrite Hes in Hin;
        apply not_elem_of_nil in Hin].
      apply elem_of_entries. split; [done|]. by exists raw. }
    by apply (proj1 (Forall_forall _ _) Hs).
  - intros Hblank. destruct (entries exclude) as [|e es] eqn:Hes; [done|].
    assert (e ∈ entries exclude) as (Hne & raw & Hraw & ->)%elem_of_entries.
    { rewrite Hes. by left. }
    destruct Hne. apply strip_nil, Forall_forall. intros c Hc.
    destruct (Hblank c) as [? | ->]; [by eapply elem_of_split|done|].
    by apply (split_no_sep comma exclude raw) in Hc.
Qed.

(** X13. The exclude flags are left out exactly when the exclude string holds
    nothing but white space and commas. *)
Theorem exclude_flag_omitted_iff_blank (path exclude : str) :
  let blank := Forall (fun c => Py.isspace c ∨ c = comma) exclude in
  (bandit_command path exclude
   = [lit "bandit"; lit "-r"; path; lit "-f"; lit "txt"] ↔ blank)
  ∧ (flake8_command path exclude
     = [lit "flake8"; path; lit "--extend-ignore=E722,B001,B028";
        lit "--select=E,W,F,C90"; lit "--max-complexity=10"] ↔ blank)
  ∧ (pylint_command path exclude
     = [lit "pylint"; path; lit "--disable=C0301,W0703,W0702,broad-except"]
     ↔ blank).
Proof.
  intros blank. subst blank. rewrite -entries_nil_blank.
  rewrite bandit_command_entries flake8_command_entries
    pylint_command_entries.
  destruct (entries exclude) as [|e es]; simpl; repeat split; done.
Qed.

(** X14. Normalising twice is normalising once: the value that [flake8] and
    [pylint] receive, given again as the exclude string, yields the same
    entries and the same three commands. *)
Theorem normalisation_idempotent (path exclude : str) :
  let normal := Py.join [comma] (entries exclude) in
  entries normal = entries exclude
  ∧ bandit_command path normal = bandit_command path exclude
  ∧ flake8_command path normal = flake8_command path exclude
  ∧ pylint_command path normal = pylint_command path exclude.
Proof.
  intros normal.
  assert (entries normal = entries exclude) as H.
  { subst normal. destruct (entries exclude) as [|e es] eqn:Hes; [done|].
    rewrite -Hes. unfold entries at 1. rewrite split_join.
    - by rewrite Hes.
    - intros e' He'. by apply entries_trimmed in He' as [_ ?].
    - apply normal_pieces_fixed. intros e' He'. split.
      + by apply elem_of_entries in He' as [? _].
      + by apply entries_trimmed in He' as [? _]. }
  by rewrite !bandit_command_entries !flake8_command_entries
       !pylint_command_entries H.
Qed.



(** ** The adapters, further *)

Lemma adapters_run w (t : str) cmd adapter (path exclude : str) st :
  (t, cmd, adapter) ∈ adapters →
  ∃ m,
    adapter w path exclude st
    = (Return (report w t m (cmd path exclude)).1,
       after_run w t m (cmd path exclude) st)
    ∧ (m = None ∨ m = Some pyre_missing).
Proof.
  unfold adapters. rewrite !elem_of_cons.
  intros [[= -> -> ->]|[[= -> -> ->]|[[= -> -> ->]|[[= -> -> ->]
    |[]%not_elem_of_nil]]]].
  - exists None. split; [apply analyze_with_bandit_run|by left].
  - exists None. split; [apply analyze_with_flake8_run|by left].
  - exists None. split; [apply analyze_with_pylint_run|by left].
  - exists (Some pyre_missing). split; [apply analyze_with_pyre_run|by right].
Qed.

(** X1. When the tool exits with status 0, each adapter returns the captured
    standard output as it is, drops the captured standard error, logs the
    command and no error, and has started that one command. *)
Theorem adapter_success_returns_stdout w (t : str) cmd adapter
    (path exclude out err : str) st :
  (t, cmd, adapter) ∈ adapters →
  popen w (cmd path exclude) = Completed 0 out err →
  adapter w path exclude st
  = (Return out,
     {| logged := logged st
          ++ [(INFO, lit "Running " ++ t ++ lit " with command: "
                       ++ quoted (cmd path exclude))];
        invoked := invoked st ++ [cmd path exclude];
        stdout := stdout st; files := files st |}).
Proof.
  intros (m & -> & _)%(adapters_run w _ _ _ path exclude st) Hp.
  unfold after_run, report. by rewrite Hp.
Qed.

Lemma adapter_success_returns_stdout_witness :
  (analyze_with_flake8 quiet_world (lit "src") (lit "build") initial).1
  = Return (lit "ok").
Proof.
  assert ((lit "Flake8", flake8_command, analyze_with_flake8) ∈ adapters)
    as Hin by (right; left).
  by rewrite (adapter_success_returns_stdout quiet_world _ _ _ (lit "src")
                (lit "build") (lit "ok") [] initial Hin eq_refl).
Defined.

(** X2. When starting the tool raises an exception other than
    [CalledProcessError] and [FileNotFoundError], each adapter logs
    [Error running <Tool>: <str(e)>] as an error and returns that text. *)
Theorem adapter_other_error_is_reported w (t : str) cmd adapter
    (path exclude text : str) st :
  (t, cmd, adapter) ∈ adapters →
  popen w (cmd path exclude) = Failed text →
  let message := lit "Error running " ++ t ++ lit ": " ++ text in
  adapter w path exclude st
  = (Return message,
     {| logged := logged st
          ++ [(INFO, lit "Running " ++ t ++ lit " with command: "
                       ++ quoted (cmd path exclude));
              (ERROR, message)];
        invoked := invoked st ++ [cmd path exclude];
        stdout := stdout st; files := files st |}).
Proof.
  intros (m & -> & _)%(adapters_run w _ _ _ path exclude st) Hp.
  unfold after_run, report. by rewrite Hp.
Qed.

Lemma adapter_other_error_is_reported_witness :
  let w := {| os_path_exists := fun _ => true;
              popen := fun _ => Failed (lit "[Errno 13] Permission denied");
              str_CalledProcessError := fun _ _ => [];
              fs_write := fun _ _ => Written |} in
  (analyze_with_pyre w (lit "src") [] initial).1
  = Return (lit "Error running Pyre: [Errno 13] Permission denied").
Proof.
  intros w.
  assert ((lit "Pyre", fun path _ : str => pyre_command path,
           analyze_with_pyre) ∈ adapters) as Hin by (do 3 right; left).
  by rewrite (adapter_other_error_is_reported w _ _ _ (lit "src") []
                (lit "[Errno 13] Permission denied") initial Hin eq_refl).
Defined.

(** ** Whole runs *)

Lemma parse_args_cases argv st :
  (∃ args, parse_args setup_argparse argv st = (Return args, st))
  ∨ (usage_error argv ∧ parse_args setup_argparse argv st = (SysExit 2, st)).
Proof.
  unfold parse_args, usage_error.
  destruct (given_path argv) as [p|]; [|by right; split; [left|]].
  destruct (given_tool argv) as [t|]; run_monad.
  - case_bool_decide as Ht; simpl; [by left; eexists|].
    right. split; [|done]. right. by exists t.
  - left. by eexists.
Qed.

Lemma usage_error_parse argv st :
  usage_error argv → parse_args setup_argparse argv st = (SysExit 2, st).
Proof.
  intros Hu. destruct (parse_args_cases argv st) as [[args Hp]|[_ Hp]]; [|done].
  assert ((parse_args setup_argparse argv st).1 = Return args) as Hp1
    by by rewrite Hp.
  apply parse_args_inv in Hp1 as (_ & Hpath & _ & _ & Ht).
  destruct Hu as [Hu|(t & Hgt & Hnot)]; [congruence|].
  revert Hp. unfold parse_args. rewrite Hpath Hgt. run_monad.
  by case_bool_decide.
Qed.

Lemma main_usage_error w argv st :
  usage_error argv → main w argv st = (SysExit 2, st).
Proof.
  intros Hp%(usage_error_parse argv st). unfold main.
  unfold mbind at 1. unfold M_bind at 1. by rewrite Hp.
Qed.

Lemma main_missing_path w argv args st :
  (parse_args setup_argparse argv st).1 = Return args →
  os_path_exists w (path args) = false →
  main w argv st
  = (SysExit 1,
     {| logged := logged st
          ++ [(ERROR, lit "Error: Path '" ++ path args
                        ++ lit "' does not exist.")];
        invoked := invoked st; stdout := stdout st; files := files st |}).
Proof.
  intros (Hp & _)%parse_args_inv Hex.
  unfold main. unfold mbind at 1. unfold M_bind at 1. rewrite Hp.
  unfold check_path. rewrite Hex. done.
Qed.

(** The three ways a run can go. *)
Lemma main_cases w argv st :
  (usage_error argv ∧ main w argv st = (SysExit 2, st))
  ∨ (∃ args,
       (parse_args setup_argparse argv st).1 = Return args
       ∧ os_path_exists w (path args) = false
       ∧ main w argv st
         = (SysExit 1,
            {| logged := logged st
                 ++ [(ERROR, lit "Error: Path '" ++ path args
                               ++ lit "' does not exist.")];
               invoked := invoked st; stdout := stdout st;
               files := files st |}))
  ∨ (∃ args r st1,
       (parse_args setup_argparse argv st).1 = Return args
       ∧ os_path_exists w (path args) = true
       ∧ choose_tool w args st = (Return r, st1)
       ∧ (∃ rest, logged st1 = logged st ++ rest)
       ∧ invoked st1 = invoked st ++ [command_of args]
       ∧ stdout st1 = stdout st ∧ files st1 = files st
       ∧ main w argv st = output_results w args r st1).
Proof.
  destruct (parse_args_cases argv st) as [[args Hp]|[Hu Hp]].
  - right. assert ((parse_args setup_argparse argv st).1 = Return args) as Hp1
      by by rewrite Hp.
    destruct (os_path_exists w (path args)) eqn:Hex.
    + right. pose proof Hp1 as (_ & _ & _ & _ & Ht%select_choices)%parse_args_inv.
      pose proof (choose_tool_run w args st Ht) as Hc. cbv zeta in Hc.
      eexists args, _, _. do 3 (split; [done|]).
      split; [by eexists|]. do 3 (split; [done|]).
      by apply main_routes.
    + left. exists args. do 2 (split; [done|]). by apply main_missing_path.
  - left. split; [done|]. by apply main_usage_error.
Qed.

Lemma output_results_cases w args (r : str) st :
  (report_target args = None
   ∧ output_results w args r st
     = (Return tt,
        {| logged := logged st; invoked := invoked st;
           stdout := stdout st ++ r ++ [newline]; files := files st |}))
  ∨ (∃ f, report_target args = Some f
          ∧ ((write_file w f r = Written
              ∧ output_results w args r st
                = (Return tt,
                   {| logged := logged st
                        ++ [(INFO, lit "Report saved to " ++ f)];
                      invoked := invoked st; stdout := stdout st;
                      files := <[f := r]> (files st) |}))
             ∨ (∃ text other,
                  write_file w f r ≠ Written
                  ∧ (other = files st ∨ ∃ partial, other = <[f := partial]> (files st))
                  ∧ output_results w args r st
                    = (SysExit 1,
                       {| logged := logged st
                            ++ [(ERROR, lit "Error writing to report file: "
                                          ++ text)];
                          invoked := invoked st; stdout := stdout st;
                          files := other |})))).
Proof.
  unfold output_results. destruct (report_target args) as [f|]; [|by left].
  right. exists f. split; [done|].
  destruct (write_file w f r) as [|text|text partial] eqn:Hw.
  - by left.
  - right. exists text, (files st). split; [done|]. split; [by left|done].
  - right. exists text, (<[f := partial]> (files st)). split; [done|].
    split; [right; by eexists|done].
Qed.

(** X3. A command line that [argparse] refuses ends the run with status 2
    before the path is looked at: nothing is logged, started, printed or
    written, whether the path exists or not.  No other run ends with
    status 2. *)
Theorem usage_error_exits_2 w argv st :
  (usage_error argv ↔ main w argv st = (SysExit 2, st))
  ∧ (usage_error argv ↔ exit_status (main w argv st).1 = 2%Z).
Proof.
  destruct (main_cases w argv st)
    as [[Hu Hm]|[(args & Hp & _ & Hm)|(args & r & st1 & Hp & _ & _ & _ & _ & _
                                         & _ & Hm)]].
  - by rewrite Hm.
  - assert (¬ usage_error argv) as Hn.
    { intros Hu%(usage_error_parse argv st). by rewrite Hu in Hp. }
    rewrite Hm. split; split; done.
  - assert (¬ usage_error argv) as Hn.
    { intros Hu%(usage_error_parse argv st). by rewrite Hu in Hp. }
    rewrite Hm.
    destruct (output_results_cases w args r st1)
      as [[_ ->]|(f & _ & [[_ ->]|(text & other & _ & _ & ->)])];
      split; split; done.
Qed.

(** X4. With a non-empty [--report_file], where nothing is printed, the
    exit status is 0, 1 or 2, and it is 0 exactly when the arguments parse,
    the path exists, and the text the adapter returned was written to the
    report file. *)
Theorem exit_status_with_report_file w argv st (f : str) :
  given_report_file argv = Some f →
  f ≠ [] →
  (exit_status (main w argv st).1 = 0%Z
   ∨ exit_status (main w argv st).1 = 1%Z
   ∨ exit_status (main w argv st).1 = 2%Z)
  ∧ (exit_status (main w argv st).1 = 0%Z
     ↔ ∃ args r st1,
         (parse_args setup_argparse argv st).1 = Return args
         ∧ os_path_exists w (path args) = true
         ∧ choose_tool w args st = (Return r, st1)
         ∧ write_file w f r = Written).
Proof.
  intros Hgf Hne.
  destruct (main_cases w argv st)
    as [[Hu Hm]|[(args & Hp & Hex & Hm)|(args & r & st1 & Hp & Hex & Hc & _ & _
                                           & _ & _ & Hm)]].
  - rewrite Hm. split; [by right; right|]. split; [done|].
    intros (args & _ & _ & Hp & _).
    by rewrite (usage_error_parse argv st Hu) in Hp.
  - rewrite Hm. split; [by right; left|]. split; [done|].
    intros (args' & _ & _ & Hp' & Hex' & _). congruence.
  - rewrite Hm.
    assert (report_target args = Some f) as Hf.
    { apply report_target_Some. split; [|done].
      apply parse_args_inv in Hp as (_ & _ & Hrf & _). congruence. }
    destruct (output_results_cases w args r st1)
      as [[Hn _]|(f' & Hf' & [[Hw ->]|(text & other & Hw & _ & ->)])];
      [congruence|..]; assert (f' = f) as -> by congruence.
    + split; [by left|]. split; [|done]. intros _.
      by eexists args, r, st1.
    + split; [by right; left|]. split; [done|].
      intros (args' & r' & st1' & Hp' & _ & Hc' & Hw').
      assert (args' = args) as -> by congruence.
      assert (r' = r) as -> by congruence. done.
Qed.

Lemma exit_status_with_report_file_witness :
  exit_status
    (main quiet_world
       (command_line (lit "/tmp/proj") (Some (lit "out.txt")) None None)
       initial).1
  = 0%Z
  ∧ ∃ args r st1,
      (parse_args setup_argparse
         (command_line (lit "/tmp/proj") (Some (lit "out.txt")) None None)
         initial).1 = Return args
      ∧ os_path_exists quiet_world (path args) = true
      ∧ choose_tool quiet_world args initial = (Return r, st1)
      ∧ write_file quiet_world (lit "out.txt") r = Written.
Proof.
  split; [reflexivity|].
  by apply (exit_status_with_report_file quiet_world
              (command_line (lit "/tmp/proj") (Some (lit "out.txt")) None None)
              initial (lit "out.txt")).
Defined.

(** X5. A run hands at most one command to [subprocess.run]: the command of the
    selected tool when the arguments parse and the path exists, and none
    otherwise. *)
Theorem subprocess_runs_at_most_once w argv st :
  (∃ args,
     (parse_args setup_argparse argv st).1 = Return args
     ∧ os_path_exists w (path args) = true
     ∧ invoked (main w argv st).2 = invoked st ++ [command_of args])
  ∨ ((∀ args, (parse_args setup_argparse argv st).1 = Return args →
              os_path_exists w (path args) = false)
     ∧ invoked (main w argv st).2 = invoked st).
Proof.
  destruct (main_cases w argv st)
    as [[Hu Hm]|[(args & Hp & Hex & Hm)|(args & r & st1 & Hp & Hex & _ & _ & _
                                           & _ & _ & _)]].
  - right. rewrite Hm. split; [|done]. intros args Hp.
    by rewrite (usage_error_parse argv st Hu) in Hp.
  - right. rewrite Hm. split; [|done]. intros args' Hp'. congruence.
  - left. exists args. do 2 (split; [done|]). by apply main_invoked.
Qed.

(** X8. When [--report_file] has a non-empty value, a run prints nothing,
    whether the report is written or not. *)
Theorem report_file_silences_stdout w argv st (f : str) :
  given_report_file argv = Some f →
  f ≠ [] →
  stdout (main w argv st).2 = stdout st.
Proof.
  intros Hgf Hne.
  destruct (main_cases w argv st)
    as [[Hu Hm]|[(args & Hp & Hex & Hm)|(args & r & st1 & Hp & _ & _
                                           & _ & _ & Hout & _ & Hm)]].
  - by rewrite Hm.
  - by rewrite Hm.
  - rewrite Hm. apply parse_args_inv in Hp as (_ & _ & Hrf & _).
    assert (report_target args = Some f) as Hf.
    { apply report_target_Some. split; [congruence|done]. }
    destruct (output_results_cases w args r st1)
      as [[Hn _]|(f' & _ & [[_ ->]|(text & other & _ & _ & ->)])];
      [congruence|done..].
Qed.

Lemma report_file_silences_stdout_witness :
  stdout (main failing_world
            (command_line (lit "/tmp/proj") (Some (lit "out.txt")) None None)
            initial).2
  = [].
Proof.
  by rewrite (report_file_silences_stdout failing_world
                (command_line (lit "/tmp/proj") (Some (lit "out.txt"))
                   None None) initial (lit "out.txt")).
Defined.

(** X9. When the report file cannot be opened, the run logs
    [Error writing to report file: <str(e)>] and ends with status 1; the
    text the adapter returned is not printed and no file is touched. *)
Theorem report_open_failure_exits_1 w argv args st (r : str) st1
    (f text : str) :
  (parse_args setup_argparse argv st).1 = Return args →
  os_path_exists w (path args) = true →
  choose_tool w args st = (Return r, st1) →
  report_file args = Some f →
  f ≠ [] →
  fs_write w f r = OpenFails text →
  main w argv st
  = (SysExit 1,
     {| logged := logged st1
          ++ [(ERROR, lit "Error writing to report file: " ++ text)];
        invoked := invoked st1; stdout := stdout st; files := files st |}).
Proof.
  intros Hp Hex Hc Hrf Hne Hw.
  rewrite (main_routes w argv args st r st1 Hp Hex Hc).
  destruct (choose_tool_frame w args st r st1 Hc) as [<- <-].
  unfold output_results, report_target, write_file. rewrite Hrf.
  destruct f as [|c f]; [done|]. simpl. by rewrite Hw.
Qed.

Lemma report_open_failure_exits_1_witness :
  (main failing_world
     (command_line (lit "/tmp/proj") (Some (lit "out.txt")) None None)
     initial).1
  = SysExit 1.
Proof.
  by rewrite (report_open_failure_exits_1 failing_world
                (command_line (lit "/tmp/proj") (Some (lit "out.txt"))
                   None None)
                {| path := lit "/tmp/proj";
                   report_file := Some (lit "out.txt"); exclude := [];
                   tool := lit "bandit" |}
                initial _ _ (lit "out.txt")
                (lit "[Errno 13] Permission denied")
                eq_refl eq_refl eq_refl eq_refl).
Defined.

(** X10. Without [--tool] and [--exclude] the run starts [bandit -r <path> -f
    txt], with no exclude argument. *)
Theorem default_run_is_bandit w (p : str) (r : option str) st :
  os_path_exists w p = true →
  invoked (main w (command_line p r None None) st).2
  = invoked st ++ [[lit "bandit"; lit "-r"; p; lit "-f"; lit "txt"]].
Proof.
  intros Hex.
  by rewrite (main_invoked w _
                {| path := p; report_file := r; exclude := [];
                   tool := lit "bandit" |}).
Qed.

Lemma default_run_is_bandit_witness :
  invoked (main failing_world (command_line (lit "pkg") None None None)
             initial).2
  = [[lit "bandit"; lit "-r"; lit "pkg"; lit "-f"; lit "txt"]].
Proof.
  by rewrite (default_run_is_bandit failing_world (lit "pkg") None initial).
Defined.

(** X11. The command a run starts begins with the executable of the selected
    tool, [pyre] for [pyre-check], and carries the path as given among its
    arguments. *)
Theorem command_starts_with_executable w argv args st :
  (parse_args setup_argparse argv st).1 = Return args →
  os_path_exists w (path args) = true →
  ∃ exe rest,
    invoked (main w argv st).2 = invoked st ++ [exe :: rest]
    ∧ path args ∈ rest
    ∧ (tool args = lit "bandit" ∧ exe = lit "bandit"
       ∨ tool args = lit "flake8" ∧ exe = lit "flake8"
       ∨ tool args = lit "pylint" ∧ exe = lit "pylint"
       ∨ tool args = lit "pyre-check" ∧ exe = lit "pyre").
Proof.
  intros Hp Hex. rewrite (main_invoked w argv args st Hp Hex).
  apply parse_args_inv in Hp as (_ & _ & _ & _ & Ht%select_choices).
  pose proof (select_cases (tool args)) as Hs. unfold command_of.
  destruct (select (tool args)); [| | | |done].
  - rewrite bandit_command_entries. eexists _, _. split; [done|].
    split; [|by left]. right. by left.
  - rewrite flake8_command_entries. eexists _, _. split; [done|].
    split; [by left|]. right. by left.
  - rewrite pylint_command_entries. eexists _, _. split; [done|].
    split; [by left|]. right. right. by left.
  - eexists _, _. split; [done|]. split; [right; by left|].
    right. right. by right.
Qed.

Lemma command_starts_with_executable_witness :
  ∃ rest,
    invoked (main quiet_world
               (command_line (lit "/tmp/proj") None None
                  (Some (lit "pyre-check"))) initial).2
    = [lit "pyre" :: rest].
Proof.
  destruct (command_starts_with_executable quiet_world
              (command_line (lit "/tmp/proj") None None
                 (Some (lit "pyre-check")))
              {| path := lit "/tmp/proj"; report_file := None; exclude := [];
                 tool := lit "pyre-check" |} initial eq_refl eq_refl)
    as (exe & rest & Hinv & _ & [[H _]|[[H _]|[[H _]|[_ ->]]]]);
    [done..|].
  by exists rest.
Defined.

(** X12. With a non-empty [--report_file], where nothing is printed, a run
    that ends with status 1 has said why: its last log record is an error,
    either that the path does not exist or that the report file could not
    be written. *)
Theorem exit_1_with_report_file_is_logged w argv st (f : str) :
  given_report_file argv = Some f →
  f ≠ [] →
  exit_status (main w argv st).1 = 1%Z →
  ∃ text,
    last (logged (main w argv st).2) = Some (ERROR, text)
    ∧ ((∃ p, given_path argv = Some p
             ∧ os_path_exists w p = false
             ∧ text = lit "Error: Path '" ++ p ++ lit "' does not exist.")
       ∨ (∃ e, text = lit "Error writing to report file: " ++ e)).
Proof.
  intros _ _.
  destruct (main_cases w argv st)
    as [[Hu Hm]|[(args & Hp & Hex & Hm)|(args & r & st1 & _ & _ & _
                                           & _ & _ & _ & _ & Hm)]].
  - by rewrite Hm.
  - rewrite Hm /=. intros _. eexists. split; [apply last_snoc|].
    left. exists (path args).
    by apply parse_args_inv in Hp as (_ & -> & _).
  - rewrite Hm.
    destruct (output_results_cases w args r st1)
      as [[_ ->]|(f' & _ & [[_ ->]|(text & other & _ & _ & ->)])];
      [done..|].
    intros _. eexists. split; [apply last_snoc|]. right. by eexists.
Qed.

Lemma exit_1_with_report_file_is_logged_witness :
  last (logged (main failing_world
                  (command_line (lit "/tmp/proj") (Some (lit "out.txt"))
                     None None) initial).2)
  = Some (ERROR,
          lit "Error writing to report file: [Errno 13] Permission denied").
Proof.
  destruct (exit_1_with_report_file_is_logged failing_world
              (command_line (lit "/tmp/proj") (Some (lit "out.txt"))
                 None None) initial (lit "out.txt") eq_refl)
    as (text & Hlast & _); [done|reflexivity|].
  rewrite Hlast. f_equal. revert Hlast. by intros [= <-].
Defined.

(** ** The logged command line *)

Lemma quote_safe (s : str) :
  s ≠ [] → Forall (fun c => Shlex.safe c) s → Shlex.quote s = s.
Proof.
  intros Hne Hs%forallb_True. unfold Shlex.quote.
  destruct s; [done|]. simpl in *. by destruct (_ && _).
Qed.

Lemma quote_safe_all (l : list str) :
  (∀ a, a ∈ l → a ≠ [] ∧ Forall (fun c => Shlex.safe c) a) →
  Shlex.quote <$> l = l.
Proof.
  induction l as [|a l IH]; intros H; [done|].
  destruct (H a) as [Hne Hs]; [by left|].
  rewrite fmap_cons quote_safe; [done..|]. rewrite IH; [|done].
  intros a' Ha'. apply H. by right.
Qed.

(** X16. A command whose arguments are non-empty and made of letters, digits
    and the characters [_@%+=:,./-] is logged as it is, the arguments
    separated by single spaces. *)
Theorem safe_command_logged_verbatim w (t : str) cmd adapter
    (path exclude : str) st :
  (t, cmd, adapter) ∈ adapters →
  (∀ a, a ∈ cmd path exclude → a ≠ [] ∧ Forall (fun c => Shlex.safe c) a) →
  ∃ rest,
    logged (adapter w path exclude st).2
    = logged st
        ++ (INFO, lit "Running " ++ t ++ lit " with command: "
                    ++ Py.join (lit " ") (cmd path exclude)) :: rest.
Proof.
  intros (m & -> & _)%(adapters_run w _ _ _ path exclude st) Hsafe.
  eexists. simpl. unfold quoted. by rewrite quote_safe_all.
Qed.

Lemma safe_command_logged_verbatim_witness :
  ∃ rest,
    logged (analyze_with_pyre quiet_world (lit "src/app") [] initial).2
    = (INFO, lit "Running Pyre with command: pyre analyze src/app") :: rest.
Proof.
  assert ((lit "Pyre", fun path _ : str => pyre_command path,
           analyze_with_pyre) ∈ adapters) as Hin by (do 3 right; left).
  apply (safe_command_logged_verbatim quiet_world _ _ _ (lit "src/app") []
           initial Hin).
  intros a. change (pyre_command (lit "src/app"))
    with [lit "pyre"; lit "analyze"; lit "src/app"].
  rewrite !elem_of_cons.
  intros [->|[->|[->|[]%not_elem_of_nil]]]; (split; [done|]);
    apply forallb_True; reflexivity.
Defined.
